(** * core-api: the multi-provider AI request orchestrator

    A shallow embedding of [src/ai.py] (provider adapters, prompt
    rendering, response extraction, model registry, fallback loop) and of
    the HTTP boundary in [src/routes/ai_router], followed by the key scan
    of [routes/redis_routes/crud.py], the cleanup of [funcs.py], the
    database class of [databases.py] with the Frida routes that use it,
    and the address search of [routes/redis_routes/redis_routes.py].

    Conventions.
    - Python [str] values are Rocq strings holding the UTF-8 encoding of
      the text; containment of one text in another is containment of the
      encodings.
    - A Python [dict] used as a lookup table is a [gmap]; a dict whose key
      order is visible (an HTTP error body) is an association list.
    - A coroutine is a computation in the monad [M]: it appends to a trace
      of observable events and either returns a value or raises an
      exception.  Awaiting is sequencing; logging is not modelled.
    - What the network answers is not decided by the program: it is the
      field [transport] of the environment [Env]; so is what the
      constructor of the proxy client makes of the configured URL. *)

From stdpp Require Import gmap strings list.
From Stdlib Require Import ZArith.

Set Default Proof Using "Type".

(** ** Python values *)

(** The newline character, written [\n] in the source. *)
Definition nl : string := String (Ascii.ascii_of_nat 10) EmptyString.

(** Truthiness of an [Optional[str]]: [None] and the empty string are
    falsy, every other string is truthy. *)
Definition truthy (o : option string) : bool :=
  match o with
  | Some (String _ _) => true
  | _ => false
  end.

(** [s] occurs in [t] as a contiguous substring. *)
Definition substring_of (s t : string) : Prop :=
  ∃ pre post : string, t = pre +:+ s +:+ post.

(** ** Exceptions

    The retry policy tells exception classes apart with [isinstance]
    against [(asyncio.TimeoutError, ConnectionError, ValueError)], so an
    exception instance is recorded with the first of these classes it is
    an instance of, or with the name of its own class when it is an
    instance of none.  [msg] is what [str(e)] returns.  Only instances of
    [Exception] are modelled: [except Exception] does not intercept
    anything else. *)
Inductive exn_class : Type :=
| TimeoutError
| ConnectionError
| ValueError
| OtherException (name : string).

Inductive exn : Type :=
| Raise (c : exn_class) (msg : string)
| RetryError (last_attempt : exn).

(** ** Requests and responses of the providers *)

(** A chat message [{"role": ..., "content": ...}]. *)
Record message : Type := Message { role : string; content : string }.

(** What a handler receives as its third argument: the OpenAI handler a
    single string, the other two a list of messages. *)
Inductive payload : Type :=
| PString (input_text : string)
| PMessages (messages : list message).

(** The text carried by a payload, message by message. *)
Definition payload_contents (p : payload) : list string :=
  match p with
  | PString s => [s]
  | PMessages ms => content <$> ms
  end.

(** Some part of the payload's content contains [s]. *)
Definition payload_contains (p : payload) (s : string) : Prop :=
  ∃ c : string, c ∈ payload_contents p ∧ substring_of s c.

(** The two response shapes: a chat completion, of which only
    [choices[i].message.content] is read, and a Responses API result, of
    which only [output_text] is read. *)
Inductive response : Type :=
| ChatCompletion (choices : list string)
| ResponsesResult (output_text : string).

(** The three handler functions, as first-class values that can be
    compared ([handler == openai_response_request]). *)
Inductive handler_ref : Type :=
| MistralRequest
| OpenAIResponseRequest
| DeepseekRequest.

#[global] Instance handler_ref_eq_dec : EqDecision handler_ref.
Proof. solve_decision. Defined.

(** ** Observable events *)

(** Transport sessions: the [Mistral] client entered with [async with],
    the [httpx.AsyncClient] built for the proxy, and the HTTP client that
    [AsyncOpenAI] builds for itself when it is given none. *)
Inductive session : Type :=
| MistralSession
| ProxySession
| OpenAIOwnSession.

#[global] Instance session_eq_dec : EqDecision session.
Proof. solve_decision. Defined.

Inductive event : Type :=
| EvTryModel (model : string)
| EvOpen (s : session)
| EvClose (s : session)
| EvSend (h : handler_ref) (api_key : option string) (model_name : string)
         (p : payload) (attempt_number : nat)
| EvSleep (seconds : Z)
| EvExtract (model : string).

(** ** The monad of coroutines *)

Definition M (A : Type) : Type := (list event * (exn + A))%type.

Definition ret {A} (a : A) : M A := ([], inr a).

Definition raise {A} (e : exn) : M A := ([], inl e).

Definition emit (ev : event) : M unit := ([ev], inr tt).

Definition bind {A B} (m : M A) (k : A → M B) : M B :=
  match m with
  | (tr, inl e) => (tr, inl e)
  | (tr, inr a) => let '(tr', r) := k a in (tr ++ tr', r)
  end.

(** [try: m finally: cleanup]. *)
Definition finally {A} (m : M A) (cleanup : M unit) : M A :=
  match m, cleanup with
  | (tr, r), (tr', inr _) => (tr ++ tr', r)
  | (tr, _), (tr', inl e) => (tr ++ tr', inl e)
  end.

(** The value of a pure computation that may raise. *)
Definition lift {A} (r : exn + A) : M A := ([], r).

(** [let* x := m in k] awaits [m] and continues with [k]. *)
Notation "'let*' x ':=' m 'in' k" := (bind m (fun x => k))
  (at level 10, x name, m at level 100, k at level 200,
   format "'[v' 'let*'  x  ':='  m  'in' '/' k ']'").

Definition trace_of {A} (m : M A) : list event := fst m.
Definition outcome_of {A} (m : M A) : exn + A := snd m.

(** The sessions still open at the end of a trace: every [EvOpen] adds
    its session, every [EvClose] removes one occurrence of it. *)
Fixpoint remove_one (s : session) (l : list session) : list session :=
  match l with
  | [] => []
  | x :: l' => if decide (x = s) then l' else x :: remove_one s l'
  end.

Fixpoint open_after (tr : list event) (opened : list session) : list session :=
  match tr with
  | [] => opened
  | EvOpen s :: tr' => open_after tr' (s :: opened)
  | EvClose s :: tr' => open_after tr' (remove_one s opened)
  | _ :: tr' => open_after tr' opened
  end.

Definition leaked (tr : list event) : list session := open_after tr [].

(** The number of transport calls and the delays in a trace. *)
Fixpoint sends (tr : list event) : nat :=
  match tr with
  | [] => 0
  | EvSend _ _ _ _ _ :: tr' => S (sends tr')
  | _ :: tr' => sends tr'
  end.

Fixpoint sleeps (tr : list event) : list Z :=
  match tr with
  | [] => []
  | EvSleep d :: tr' => d :: sleeps tr'
  | _ :: tr' => sleeps tr'
  end.

(** ** Prompt templates ([PROMPT_TEMPLATES]) *)

Definition voice_template : string :=
"
    Ты - Фрида, бот-помощник компании Фридом. Твоя задача проанализировать вопрос и контекст звукового файла.
    Учитывай, что текст может содержать ошибки, поскольку был обработан из голосового сообщения.
    Если вопроса нет, отвечай согласно тексту голосового сообщения. Используй HTML теги где нужно что-то выделить.
    Делай текст хорошо структурированным и понятным. НЕ ИСПОЛЬЗУЙ MARKDOWN.
    Только эти теги HTML (<b>, <i>, <a>, <code>, <pre>) НЕЛЬЗЯ ИСПОЛЬЗОВАТЬ: <ul>, <br>, <table>, <small> и остальные!
    Отвечай четко и кратко на вопрос и только на русском.
    ".

Definition csv_template : string :=
"
    Ты - Фрида, бот-помощник компании Фридом. Обработай файл таблицы по запросу.
    Если нет вопроса, то просто опиши таблицу. Используй HTML теги где нужно что-то выделить.
    Делай текст хорошо структурированным и понятным. НЕ ИСПОЛЬЗУЙ MARKDOWN.
    Только эти теги HTML (<b>, <i>, <a>, <code>, <pre>) НЕЛЬЗЯ ИСПОЛЬЗОВАТЬ: <ul>, <br>, <table>, <small> и остальные!
    Отвечай четко и кратко на вопрос и только на русском.
    ".

Definition text_template : string :=
"
    Ты — Фрида, бот-помощник компании Фридом. Твоя задача — отвечать на вопросы сотрудников компании,
    основываясь на предоставленных данных из корпоративной WIKI, содержащих важную информацию из статей.

    Инструкции:
    1. Если вопрос не про тарифы, то отвечай на него как обычно.
    2. Если вопрос о тарифах:
       - Если в контексте представлен контекст тарифов, то есть словарь с тарифами, ответь на вопрос как обычно.
       - Если в контексте текст со ссылками на WIKI, это значит, что человек не указал территорию через команду /tariff. Предложи воспользоваться этой командой, чтобы уточнить территорию, а затем задать вопрос.
    3. Не выдумывай факты.
    4. Строго запрещено использовать MARKDOWN. Используй только эти теги HTML (<b>, <i>, <a>, <code>, <pre>) НЕЛЬЗЯ ИСПОЛЬЗОВАТЬ: <ul>, <br>, <table>, <small> и остальные!
    5. Если в контексте указана ссылка начинающиеся на http://wiki.freedom1.ru:8080/ , то прикрепи откуда брал информацию в ответе. В вопросе про тарифы это не нужно.
    ".

Definition PROMPT_TEMPLATES : gmap string string :=
  <["voice" := voice_template]>
  (<["csv" := csv_template]>
  (<["text" := text_template]> ∅)).

(** The default of the message-list branch of [try_model]. *)
Definition generic_instruction : string :=
  "Ты — бот-помощник. Отвечай четко и кратко на русском языке.".

(** ** The environment

    [config.py] reads the credentials and the proxy with [os.getenv]
    ([None] for a variable that is not set); the environment is not
    changed afterwards.  [AsyncClient url] is what
    [httpx.AsyncClient(proxy=url)] does with the URL, which it parses
    when the client is built: it returns, or raises (a [ValueError] for a
    scheme it does not know).  The providers answer as [transport]
    says, for each handler, credential the client holds, model name,
    payload and attempt number of the retried call.  [future_repr] is the
    text of the finished attempt that [str(RetryError)] shows between
    brackets. *)
Record Env : Type := {
  MISTRAL_API_KEY : option string;
  OPENAI_API_KEY : option string;
  DEEPSEEK_API_KEY : option string;
  PROXY : option string;
  AsyncClient : string → exn + unit;
  transport : handler_ref → option string → string → payload → nat → exn + response;
  future_repr : exn → string
}.

(** [str(e)]. *)
Definition str_exn (E : Env) (e : exn) : string :=
  match e with
  | Raise _ msg => msg
  | RetryError last => "RetryError[" +:+ future_repr E last +:+ "]"
  end.

(** ** The retry decorator

    [@retry(stop=stop_after_attempt(n), wait=wait_fixed(d), retry=p)]
    calls the function; a returned value is returned; an exception that
    [p] rejects is raised as it is; an exception that [p] accepts ends the
    call with [RetryError] when [n] attempts have been made, and
    otherwise is followed by a delay of [d] and the next attempt. *)

Definition retry_if_exception_type (e : exn) : bool :=
  match e with
  | Raise TimeoutError _ | Raise ConnectionError _ | Raise ValueError _ => true
  | _ => false
  end.

Fixpoint retrying {A} (wait : Z) (retry_on : exn → bool)
    (remaining attempt_number : nat) (fn : nat → M A) : M A :=
  match fn attempt_number with
  | (tr, inr v) => (tr, inr v)
  | (tr, inl e) =>
      if retry_on e then
        match remaining with
        | O => (tr, inl (RetryError e))
        | S remaining' =>
            let '(tr', r) :=
              retrying wait retry_on remaining' (S attempt_number) fn in
            (tr ++ EvSleep wait :: tr', r)
        end
      else (tr, inl e)
  end.

Definition retry {A} (stop_after_attempt : nat) (wait_fixed : Z)
    (retry_on : exn → bool) (fn : nat → M A) : M A :=
  retrying wait_fixed retry_on (stop_after_attempt - 1) 1 fn.

Section Adapters.
Variable E : Env.

(** One transport call. *)
Definition send (h : handler_ref) (api_key : option string)
    (model_name : string) (p : payload) (attempt_number : nat) : M response :=
  ([EvSend h api_key model_name p attempt_number],
   transport E h api_key model_name p attempt_number).

(** [async with Mistral(api_key=api_key) as client: return await ...]
    The constructor keeps the key as it is given, also a missing one. *)
Definition mistral_request_body (api_key : option string) (model_name : string)
    (messages : payload) (attempt_number : nat) : M response :=
  let* _ := emit (EvOpen MistralSession) in
  finally (send MistralRequest api_key model_name messages attempt_number)
          (emit (EvClose MistralSession)).

Definition mistral_request (api_key : option string) (model_name : string)
    (messages : payload) : M response :=
  retry 3 2 retry_if_exception_type
        (mistral_request_body api_key model_name messages).

(** The constructor [AsyncOpenAI(api_key=api_key, ...)] of the OpenAI
    SDK: an [api_key] that is [None] is replaced by the environment
    variable [OPENAI_API_KEY], the one that [config.py] reads; when that
    is not set either, the constructor raises [OpenAIError], a direct
    subclass of [Exception].  The value is the credential that the
    client sends with its requests. *)
Definition AsyncOpenAI (api_key : option string) : exn + string :=
  match api_key, OPENAI_API_KEY E with
  | Some k, _ => inr k
  | None, Some k => inr k
  | None, None =>
      inl (Raise (OtherException "OpenAIError")
                 "The api_key client option must be set either by passing api_key to the client or by setting the OPENAI_API_KEY environment variable")
  end.

(** [http_client] is built only when [PROXY] is truthy, and then passed
    to [AsyncOpenAI]; with [http_client=None] the client builds its own.
    Both constructors run inside the retried function and before the
    [try] block, whose [finally] closes [http_client] when there is
    one. *)
Definition openai_response_request_body (api_key : option string)
    (model_name : string) (input_text : payload) (attempt_number : nat)
    : M response :=
  let* http_client :=
    (if truthy (PROXY E) then
       let* _ := lift (AsyncClient E (default EmptyString (PROXY E))) in
       let* _ := emit (EvOpen ProxySession) in
       ret true
     else ret false) in
  let* client := lift (AsyncOpenAI api_key) in
  let* _ := (if http_client then ret tt else emit (EvOpen OpenAIOwnSession)) in
  finally (send OpenAIResponseRequest (Some client) model_name input_text
                attempt_number)
          (if http_client then emit (EvClose ProxySession) else ret tt).

Definition openai_response_request (api_key : option string)
    (model_name : string) (input_text : payload) : M response :=
  retry 3 2 retry_if_exception_type
        (openai_response_request_body api_key model_name input_text).

(** [client = AsyncOpenAI(base_url=..., api_key=api_key)] then
    [return await client.chat.completions.create(...)]: the request
    goes to openrouter.ai with the credential of the client. *)
Definition deepseek_request_body (api_key : option string) (model_name : string)
    (messages : payload) (attempt_number : nat) : M response :=
  let* client := lift (AsyncOpenAI api_key) in
  let* _ := emit (EvOpen OpenAIOwnSession) in
  send DeepseekRequest (Some client) model_name messages attempt_number.

Definition deepseek_request (api_key : option string) (model_name : string)
    (messages : payload) : M response :=
  retry 3 2 retry_if_exception_type
        (deepseek_request_body api_key model_name messages).

(** Calling a handler value. *)
Definition call (h : handler_ref) : option string → string → payload → M response :=
  match h with
  | MistralRequest => mistral_request
  | OpenAIResponseRequest => openai_response_request
  | DeepseekRequest => deepseek_request
  end.

(** The function body that the decorator of [h] wraps. *)
Definition body_of (h : handler_ref) : option string → string → payload → nat → M response :=
  match h with
  | MistralRequest => mistral_request_body
  | OpenAIResponseRequest => openai_response_request_body
  | DeepseekRequest => deepseek_request_body
  end.

(** ** Response extraction (the [response_field] lambdas) *)

(** [lambda r: r.choices[0].message.content] *)
Definition first_choice_content (r : response) : exn + string :=
  match r with
  | ChatCompletion (c :: _) => inr c
  | ChatCompletion [] =>
      inl (Raise (OtherException "IndexError") "list index out of range")
  | ResponsesResult _ =>
      inl (Raise (OtherException "AttributeError")
                 "'Response' object has no attribute 'choices'")
  end.

(** [lambda r: r.output_text] *)
Definition output_text_of (r : response) : exn + string :=
  match r with
  | ResponsesResult t => inr t
  | ChatCompletion _ =>
      inl (Raise (OtherException "AttributeError")
                 "'ChatCompletion' object has no attribute 'output_text'")
  end.

(** ** The model registry *)

Record model_config : Type := {
  api_key : option string;
  handler : handler_ref;
  response_field : response → exn + string
}.

Definition MODEL_CONFIG : gmap string model_config :=
  <["mistral-large-latest" :=
      {| api_key := MISTRAL_API_KEY E; handler := MistralRequest;
         response_field := first_choice_content |}]>
  (<["gpt-4o-mini" :=
      {| api_key := OPENAI_API_KEY E; handler := OpenAIResponseRequest;
         response_field := output_text_of |}]>
  (<["deepseek/deepseek-chat-v3-0324:free" :=
      {| api_key := DEEPSEEK_API_KEY E; handler := DeepseekRequest;
         response_field := first_choice_content |}]> ∅)).

Definition DEFAULT_MODEL_ORDER : list string :=
  ["mistral-large-latest"; "deepseek/deepseek-chat-v3-0324:free"; "gpt-4o-mini"].

(** ** [try_model] *)

(** [f"Запрос: {query}\nКонтекст: {context}\nИстория: {history}"] *)
Definition labelled_sections (query context history : string) : string :=
  "Запрос: " +:+ query +:+ nl +:+ "Контекст: " +:+ context +:+ nl
    +:+ "История: " +:+ history.

Definition try_model (model : string) (api_key : option string)
    (handler : handler_ref) (get_response_text : response → exn + string)
    (input_type query context history : string) : M string :=
  let* _ := emit (EvTryModel model) in
  let* response :=
    (if decide (handler = OpenAIResponseRequest) then
       let prompt :=
         default EmptyString (PROMPT_TEMPLATES !! input_type) +:+ nl +:+ nl
           +:+ labelled_sections query context history in
       call handler api_key model (PString prompt)
     else
       let system_content :=
         default generic_instruction (PROMPT_TEMPLATES !! input_type) in
       let messages :=
         [ {| role := "system"; content := system_content |};
           {| role := "user";
              content := labelled_sections query context history |} ] in
       call handler api_key model (PMessages messages)) in
  let* result :=
    (let* _ := emit (EvExtract model) in lift (get_response_text response)) in
  ret result.

End Adapters.

(** ** [get_ai] *)

(** [HTTPException(status_code=..., detail={...})]; the keys of [detail]
    in the order of the source. *)
Record HTTPException : Type := {
  status_code : Z;
  detail : list (string * string)
}.

(** [str(None)]. *)
Definition str_None : string := "None".

Section Orchestrator.
Variable E : Env.

Definition unsupported_model (model : string) : HTTPException :=
  {| status_code := 400;
     detail := [ ("status", "error");
                 ("message", "Модель '" +:+ model +:+ "' не поддерживается") ] |}.

Definition all_models_failed (last_error : option exn) : HTTPException :=
  {| status_code := 500;
     detail := [ ("status", "error");
                 ("message", "Не удалось получить ответ ни от одной модели");
                 ("error", from_option (str_exn E) str_None last_error) ] |}.

(** The first part of [get_ai]: the value of [models_to_try], or the
    exception raised for a model that is not in the registry. *)
Definition models_to_try (model : option string) : HTTPException + list string :=
  match model with
  | Some m =>
      if truthy model then
        match MODEL_CONFIG E !! m with
        | None => inl (unsupported_model m)
        | Some _ => inr (m :: filter (λ m', m' ≠ m) DEFAULT_MODEL_ORDER)
        end
      else inr DEFAULT_MODEL_ORDER
  | None => inr DEFAULT_MODEL_ORDER
  end.

(** The text put before the answer of a fallback model. *)
Definition fallback_annotation (current_model original_model : string) : string :=
  "<i>⚠️ Используется модель " +:+ current_model +:+ ", так как "
    +:+ original_model +:+ " недоступна</i>" +:+ nl +:+ nl.

(** The two [return] statements of the loop body. *)
Definition returned_text (original_model : option string)
    (current_model response_text : string) : string :=
  match original_model with
  | Some o =>
      if truthy original_model && bool_decide (current_model ≠ o)
      then "<i>⚠️ Используется модель " +:+ current_model +:+ ", так как "
             +:+ o +:+ " недоступна</i>" +:+ nl +:+ nl +:+ response_text
      else response_text
  | None => response_text
  end.

Section Request.
Variables (query context history input_type : string).

(** The body of the [try] block for one candidate. *)
Definition attempt (current_model : string) : M string :=
  let* model_config :=
    lift (match MODEL_CONFIG E !! current_model with
          | Some c => inr c
          | None => inl (Raise (OtherException "KeyError")
                               ("'" +:+ current_model +:+ "'"))
          end) in
  try_model E current_model (api_key model_config) (handler model_config)
            (response_field model_config) input_type query context history.

(** The [for] loop, with the variable [last_error]. *)
Fixpoint get_ai_loop (original_model : option string)
    (models : list string) (last_error : option exn)
    : list event * (HTTPException + string) :=
  match models with
  | [] => ([], inl (all_models_failed last_error))
  | current_model :: rest =>
      match attempt current_model with
      | (tr, inr response_text) =>
          (tr, inr (returned_text original_model current_model response_text))
      | (tr, inl e) =>
          let '(tr', r) := get_ai_loop original_model rest (Some e) in
          (tr ++ tr', r)
      end
  end.

Definition get_ai (model : option string)
    : list event * (HTTPException + string) :=
  let original_model := model in
  match models_to_try model with
  | inl err => ([], inl err)
  | inr order => get_ai_loop original_model order None
  end.

End Request.
End Orchestrator.

(** ** The HTTP boundary ([routes/ai_router]) *)

Module Schemas.
(** [AIRequest]: three required fields and two with a default. *)
Record AIRequest : Type := {
  text : string;
  combined_context : string;
  chat_history : string;
  input_type : string;
  model : string
}.

Record AIResponse : Type := { ai_response : string }.

(** Validation of a JSON object with string members against
    [AIRequest]: a missing required field or an [input_type] outside
    the [Literal] is rejected, a missing optional field takes its
    default. *)
Definition validate (body : gmap string string) : option AIRequest :=
  t ← body !! "text";
  c ← body !! "combined_context";
  h ← body !! "chat_history";
  let it := default "text" (body !! "input_type") in
  if bool_decide (it ∈ ["voice"; "csv"; "text"]) then
    Some {| text := t; combined_context := c; chat_history := h;
            input_type := it;
            model := default "mistral-large-latest" (body !! "model") |}
  else None.
End Schemas.

Section Routes.
Variable E : Env.

(** The handler of [POST /v1/ai]: an [HTTPException] of [get_ai] is
    raised again unchanged.  [get_ai] raises nothing else, so the branch
    [except Exception] of the handler is never taken. *)
Definition get_ai_response (request_data : Schemas.AIRequest)
    : list event * (HTTPException + Schemas.AIResponse) :=
  match get_ai E (Schemas.text request_data)
               (Schemas.combined_context request_data)
               (Schemas.chat_history request_data)
               (Schemas.input_type request_data)
               (Some (Schemas.model request_data)) with
  | (tr, inr response_text) => (tr, inr {| Schemas.ai_response := response_text |})
  | (tr, inl err) => (tr, inl err)
  end.

(** A request to the route: [None] when the body is rejected by
    validation, before the handler runs. *)
Definition post_v1_ai (body : gmap string string)
    : option (list event * (HTTPException + Schemas.AIResponse)) :=
  get_ai_response <$> Schemas.validate body.
End Routes.

(** * Sample environments, used to run the definitions *)

(** A response of the shape that the extractor of [h] reads. *)
Definition answer_of (h : handler_ref) (t : string) : response :=
  match h with
  | OpenAIResponseRequest => ResponsesResult t
  | _ => ChatCompletion [t]
  end.

Definition no_repr (e : exn) : string := "<Future state=finished raised>".

(** Every provider answers ["ok"] at once. *)
Definition env_up : Env :=
  {| MISTRAL_API_KEY := Some "mk"; OPENAI_API_KEY := Some "ok";
     DEEPSEEK_API_KEY := Some "dk"; PROXY := None;
     AsyncClient := λ _, inr tt;
     transport := λ h _ _ _ _, inr (answer_of h "ok");
     future_repr := no_repr |}.

(** Every provider refuses the credential, with the model name in the
    message. *)
Definition env_down : Env :=
  {| MISTRAL_API_KEY := Some "mk"; OPENAI_API_KEY := Some "ok";
     DEEPSEEK_API_KEY := Some "dk"; PROXY := None;
     AsyncClient := λ _, inr tt;
     transport := λ _ _ m _ _,
       inl (Raise (OtherException "AuthenticationError") ("401 " +:+ m));
     future_repr := no_repr |}.

(** Mistral is down, the other providers answer with their handler's
    shape. *)
Definition env_mistral_down : Env :=
  {| MISTRAL_API_KEY := Some "mk"; OPENAI_API_KEY := Some "ok";
     DEEPSEEK_API_KEY := Some "dk"; PROXY := Some "http://proxy:3128";
     AsyncClient := λ _, inr tt;
     transport := λ h _ _ _ _,
       match h with
       | MistralRequest => inl (Raise (OtherException "SDKError") "503")
       | _ => inr (answer_of h "ok")
       end;
     future_repr := no_repr |}.

(** Every provider times out twice and answers at the third attempt. *)
Definition env_flaky : Env :=
  {| MISTRAL_API_KEY := Some "mk"; OPENAI_API_KEY := Some "ok";
     DEEPSEEK_API_KEY := Some "dk"; PROXY := None;
     AsyncClient := λ _, inr tt;
     transport := λ h _ _ _ n,
       if decide (n < 3) then inl (Raise TimeoutError "timed out")
       else inr (answer_of h "late");
     future_repr := no_repr |}.

(** Every attempt fails with [ValueError]. *)
Definition env_invalid : Env :=
  {| MISTRAL_API_KEY := Some "mk"; OPENAI_API_KEY := Some "ok";
     DEEPSEEK_API_KEY := Some "dk"; PROXY := None;
     AsyncClient := λ _, inr tt;
     transport := λ _ _ _ _ _, inl (Raise ValueError "bad request");
     future_repr := no_repr |}.

(** ** Scanning the keys of Redis ([routes/redis_routes/crud.py]) *)

Module RedisCrud.

(** What the program does on the connection: one [SCAN] with its cursor,
    pattern and count, and the closing of the connection. *)
Inductive command : Type :=
| Scan (cursor : N) (pattern : string) (count : N)
| Close.

(** A connection, as far as the function uses it: the answer of [SCAN]
    (the next cursor and some keys, or an exception), and the exception
    that [aclose] raises, if any. *)
Record connection : Type := {
  scan : N → string → N → exn + (N * list string);
  aclose : option exn
}.

(** The [while True] loop with its variables [cursor] and [keys].  The
    loop ends when the server answers with cursor 0; [fuel] bounds the
    number of rounds, and [None] means that the bound was reached. *)
Fixpoint scan_loop (fuel : nat) (redis : connection) (pattern : string)
    (count cursor : N) (keys : gset string)
    : option (list command * (exn + gset string)) :=
  match fuel with
  | O => None
  | S fuel' =>
      match scan redis cursor pattern count with
      | inl e => Some ([Scan cursor pattern count], inl e)
      | inr (cursor', partial_keys) =>
          let keys' := keys ∪ list_to_set partial_keys in
          if decide (cursor' = 0%N) then
            Some ([Scan cursor pattern count], inr keys')
          else
            match scan_loop fuel' redis pattern count cursor' keys' with
            | Some (tr, r) => Some (Scan cursor pattern count :: tr, r)
            | None => None
            end
      end
  end.

(** [get_unique_keys_with_prefix(pattern, count, redis)]: without a
    connection, [ValueError]; otherwise the loop, and [redis.aclose()]
    in the [finally] block. *)
Definition get_unique_keys_with_prefix (fuel : nat) (pattern : string)
    (count : N) (redis : option connection)
    : option (list command * (exn + gset string)) :=
  match redis with
  | None => Some ([], inl (Raise ValueError "Redis connection must be provided"))
  | Some r =>
      match scan_loop fuel r pattern count 0%N ∅ with
      | Some (tr, res) =>
          match aclose r with
          | None => Some (tr ++ [Close], res)
          | Some e => Some (tr ++ [Close], inl e)
          end
      | None => None
      end
  end.

(** The pages that the server hands out from [cursor] on, until it
    answers with cursor 0. *)
Inductive pages_from (redis : connection) (pattern : string) (count : N)
    : N → list (list string) → Prop :=
| pages_last cursor page :
    scan redis cursor pattern count = inr (0%N, page) →
    pages_from redis pattern count cursor [page]
| pages_more cursor cursor' page pages :
    scan redis cursor pattern count = inr (cursor', page) →
    cursor' ≠ 0%N →
    pages_from redis pattern count cursor' pages →
    pages_from redis pattern count cursor (page :: pages).

(** A server with three pages; the key ["login:b"] comes twice. *)
Definition three_pages : connection :=
  {| scan := λ cursor _ _,
       match cursor with
       | 0 => inr (17, ["login:a"; "login:b"])
       | 17 => inr (5, ["login:b"])
       | _ => inr (0, ["login:c"])
       end%N;
     aclose := None |}.

(** A server that fails at the second page. *)
Definition broken_second_page : connection :=
  {| scan := λ cursor _ _,
       match cursor with
       | 0%N => inr (17%N, ["login:a"])
       | _ => inl (Raise ConnectionError "connection reset")
       end;
     aclose := None |}.

End RedisCrud.

(** ** Cleaning the directory of temporary files ([funcs.py]) *)

Module Files.

(** [strip_prefix p s] is what follows [p] in [s], when [s] starts with
    [p]. *)
Fixpoint strip_prefix (p s : string) : option string :=
  match p, s with
  | EmptyString, _ => Some s
  | String a p', String b s' => if decide (a = b) then strip_prefix p' s' else None
  | String _ _, EmptyString => None
  end.

Fixpoint ends_with (suffix s : string) : bool :=
  bool_decide (s = suffix) ||
  match s with
  | EmptyString => false
  | String _ s' => ends_with suffix s'
  end.

(** A file name matches the pattern [temp_users_*.json]: it starts with
    [temp_users_] and what follows ends with [.json]; the star stands
    for any characters, also none. *)
Definition matches_temp_users (name : string) : bool :=
  match strip_prefix "temp_users_" name with
  | Some rest => ends_with ".json" rest
  | None => false
  end.

(** [temp_dir.glob("temp_users_*.json")] over the names of the
    directory. *)
Definition glob_temp_users (names : list string) : list string :=
  filter (λ name, matches_temp_users name = true) names.

(** What [os.remove] does with a file: it removes it, raises [OSError]
    (or a subclass), or raises another exception. *)
Inductive removal : Type :=
| Removed
| RaisesOSError
| RaisesOther.

#[global] Instance removal_eq_dec : EqDecision removal.
Proof. solve_decision. Defined.

(** The [for] loop: the files removed so far, in order; [inl] when an
    exception other than [OSError] left the loop. *)
Fixpoint remove_files (os_remove : string → removal) (files : list string)
    (removed : list string) : list string + list string :=
  match files with
  | [] => inr removed
  | file :: rest =>
      match os_remove file with
      | Removed => remove_files os_remove rest (removed ++ [file])
      | RaisesOSError => remove_files os_remove rest removed
      | RaisesOther => inl removed
      end
  end.

(** [cleanup_temp_dir(temp_dir)]: the names found in the directory (or
    the exception raised while listing it) and [os.remove] decide which
    files are gone afterwards.  The function returns [None] and raises
    nothing: the outer [except Exception] only logs.  The result here
    is the list of the files removed, [files_removed] being its
    length. *)
Definition cleanup_temp_dir (os_remove : string → removal)
    (names : exn + list string) : list string :=
  match names with
  | inl _ => []
  | inr names =>
      match remove_files os_remove (glob_temp_users names) [] with
      | inr removed => removed
      | inl removed => removed
      end
  end.

(** The name of the file that the export route writes:
    [f"temp_users_{uuid.uuid4().hex}.json"]. *)
Definition export_file_name (uuid_hex : string) : string :=
  "temp_users_" +:+ uuid_hex +:+ ".json".

(** One file cannot be removed, the others can. *)
Definition protected_file (name : string) : removal :=
  if decide (name = "temp_users_1.json") then RaisesOSError else Removed.

End Files.

(** ** The database and the Frida routes ([databases.py],
    [routes/frida_routes]) *)

From stdpp Require Import pretty.

Module Frida.

(** A value decoded from JSON.  Of a float only its being zero is kept:
    the code looks at nothing else. *)
#[local] Unset Elimination Schemes.
Inductive pyval : Type :=
| PNone
| PBool (b : bool)
| PInt (n : Z)
| PFloat (is_zero : bool)
| PStr (s : string)
| PList (l : list pyval)
| PDict (d : list (string * pyval)).
#[local] Set Elimination Schemes.

(** Truthiness. *)
Definition py_truthy (v : pyval) : bool :=
  match v with
  | PNone => false
  | PBool b => b
  | PInt n => negb (n =? 0)%Z
  | PFloat z => negb z
  | PStr s => negb (bool_decide (s = EmptyString))
  | PList l => match l with [] => false | _ => true end
  | PDict d => match d with [] => false | _ => true end
  end.

(** The first binding of a key in the items of a dict. *)
Fixpoint assoc (k : string) (d : list (string * pyval)) : option pyval :=
  match d with
  | [] => None
  | (k', v) :: d' => if decide (k' = k) then Some v else assoc k d'
  end.

(** [type(v).__name__]. *)
Definition type_name (v : pyval) : string :=
  match v with
  | PNone => "NoneType"
  | PBool _ => "bool"
  | PInt _ => "int"
  | PFloat _ => "float"
  | PStr _ => "str"
  | PList _ => "list"
  | PDict _ => "dict"
  end.

(** The [AttributeError] of [data.get] for a value that is not a
    dict. *)
Definition no_attribute_get (data : pyval) : exn :=
  Raise (OtherException "AttributeError")
        ("'" +:+ type_name data +:+ "' object has no attribute 'get'").

(** [data.get(key)]: the value or [None] for a dict, [AttributeError]
    for any other value. *)
Definition py_get (data : pyval) (key : string) : exn + pyval :=
  match data with
  | PDict d => inr (default PNone (assoc key d))
  | _ => inl (no_attribute_get data)
  end.

(** *** The SQL connection *)

Inductive sqlval : Type :=
| SNull
| SBool (b : bool)
| SInt (n : Z)
| SStr (s : string).

Definition row : Type := list sqlval.

(** What the program asks of the database driver. *)
Inductive dbcmd : Type :=
| Connect
| Execute (sql : string) (params : list sqlval)
| Commit
| Rollback
| CloseCursor
| CloseConnection.

#[global] Instance sqlval_eq_dec : EqDecision sqlval.
Proof. solve_decision. Defined.

#[global] Instance dbcmd_eq_dec : EqDecision dbcmd.
Proof. solve_decision. Defined.

(** The world outside the program: the answer of the 1C service to a
    [GET] (an exception, or the status with what [res.json()] gives);
    what the validation of a [str] field makes of a value that is not a
    string; [str.split()]; and the answer of the database to a command,
    given the commands sent before (the rows of a statement, or an
    exception). *)
Record World : Type := {
  onec : string → exn + (Z * (exn + pyval));
  lax_str : pyval → exn + string;
  py_split : string → list string;
  server : list dbcmd → dbcmd → exn + list row
}.

(** Computations on the connection: they extend the history of
    commands and return or raise. *)
Definition D (A : Type) : Type := list dbcmd → list dbcmd * (exn + A).

Definition dret {A} (a : A) : D A := λ h, (h, inr a).
Definition draise {A} (e : exn) : D A := λ h, (h, inl e).

Definition dbind {A B} (m : D A) (k : A → D B) : D B :=
  λ h, match m h with
       | (h', inr a) => k a h'
       | (h', inl e) => (h', inl e)
       end.

(** [try: m except Exception as e: handler(e)]. *)
Definition dtry {A} (m : D A) (handler : exn → D A) : D A :=
  λ h, match m h with
       | (h', inr a) => (h', inr a)
       | (h', inl e) => handler e h'
       end.

Notation "'do*' x ':=' m 'in' k" := (dbind m (fun x => k))
  (at level 10, x name, m at level 100, k at level 200,
   format "'[v' 'do*'  x  ':='  m  'in' '/' k ']'").

Section Database.
Variable W : World.

(** One command: it is recorded and the server answers. *)
Definition send_cmd (c : dbcmd) : D (list row) :=
  λ h, (h ++ [c], server W h c).

(** [PostgreSQL.__init__]: [psycopg2.connect] and the cursor; an
    exception is logged and raised again. *)
Definition PostgreSQL_init : D unit :=
  do* _ := send_cmd Connect in dret tt.

Definition insert_user_sql : string :=
  "
                INSERT INTO users (user_id, username, first_name, last_name)
                VALUES (%s, %s, %s, %s)
            ".

(** [add_user_to_db]: the statement and the commit; on an exception,
    the rollback, and the exception is raised again. *)
Definition add_user_to_db (user_id : Z) (username first_name last_name : string)
    : D unit :=
  dtry (do* _ := send_cmd (Execute insert_user_sql
                             [SInt user_id; SStr username; SStr first_name;
                              SStr last_name]) in
        do* _ := send_cmd Commit in
        dret tt)
       (λ e, do* _ := send_cmd Rollback in draise e).

(** [user_exists]: whether [fetchone()] gives a row. *)
Definition user_exists (user_id : Z) : D bool :=
  do* rows := send_cmd (Execute "SELECT 1 FROM users WHERE user_id = %s"
                          [SInt user_id]) in
  dret (match rows with [] => false | _ => true end).

Definition insert_log_sql : string :=
  "
                INSERT INTO bot_logs (user_id, query, response, response_status, category)
                VALUES (%s, %s, %s, %s, %s)
                RETURNING log_id;
            ".

Definition insert_hash_sql : string :=
  "
                    INSERT INTO bot_log_topic_hashes (log_id, topic_hash)
                    VALUES (%s, %s)
                ".

(** [result[0] if result else None] for the row of [fetchone()]: the
    first column, or [None] when there is no row or the row is empty. *)
Definition first_column (rows : list row) : sqlval :=
  match rows with
  | (v :: _) :: _ => v
  | _ => SNull
  end.

(** The [for] loop over the topic hashes. *)
Fixpoint insert_hashes (log_id : sqlval) (topic_hashs : list string) : D unit :=
  match topic_hashs with
  | [] => dret tt
  | topic_hash :: rest =>
      do* _ := send_cmd (Execute insert_hash_sql [log_id; SStr topic_hash]) in
      insert_hashes log_id rest
  end.

(** [log_message]: the row of the log, one row per topic hash, and one
    commit; on an exception, the rollback, and the exception is raised
    again. *)
Definition log_message (user_id : Z) (user_query response : string)
    (response_status : bool) (topic_hashs : list string) (category : string)
    : D unit :=
  dtry (do* rows := send_cmd (Execute insert_log_sql
                                [SInt user_id; SStr user_query; SStr response;
                                 SBool response_status; SStr category]) in
        let log_id := first_column rows in
        do* _ := insert_hashes log_id topic_hashs in
        do* _ := send_cmd Commit in
        dret tt)
       (λ e, do* _ := send_cmd Rollback in draise e).

(** [connection_close]: the cursor, then the connection; an exception
    of either is logged and not raised, and an exception of the first
    leaves out the second. *)
Definition connection_close : D unit :=
  dtry (do* _ := send_cmd CloseCursor in
        do* _ := send_cmd CloseConnection in
        dret tt)
       (λ _, dret tt).

End Database.

(** *** The 1C service ([crud.auth_1c]) *)

Inductive http_event : Type :=
| SessionOpen
| Get (url : string)
| SessionClose.

(** What [auth_1c] returns: an [Employee1C] or a dict with the key
    [error]. *)
Inductive auth_result : Type :=
| Employee (fio jobTitle : string)
| ErrorDict (error : string).

(** The validation of a [str] field. *)
Definition validate_str (W : World) (v : pyval) : exn + string :=
  match v with
  | PStr s => inr s
  | _ => lax_str W v
  end.

Definition auth_url (telegramid : Z) : string :=
  "http://server1c.freedom1.ru/UNF_CRM_WS/hs/Grafana/anydata?query=emploeyy&telegramId="
    +:+ pretty telegramid.

(** The body of the [try] block, between the opening and the closing
    of the session. *)
Definition auth_1c_body (W : World) (telegramid : Z) : exn + auth_result :=
  match onec W (auth_url telegramid) with
  | inl e => inl e
  | inr (status, json) =>
      if negb (status =? 200)%Z then inr (ErrorDict "Ошибка соединения с 1С")
      else
        match json with
        | inl e => inl e
        | inr data =>
            if negb (py_truthy data) then inr (ErrorDict "Доступ запрещён")
            else
              match py_get data "fio" with
              | inl e => inl e
              | inr fio =>
                  match py_get data "jobTitle" with
                  | inl e => inl e
                  | inr job_title =>
                      if py_truthy fio && py_truthy job_title then
                        match validate_str W fio with
                        | inl e => inl e
                        | inr f =>
                            match validate_str W job_title with
                            | inl e => inl e
                            | inr j => inr (Employee f j)
                            end
                        end
                      else inr (ErrorDict "Неизвестный ответ от 1С")
                  end
              end
        end
  end.

(** [auth_1c]: every exception of the body becomes the dict of a failed
    connection; the session is closed on every path. *)
Definition auth_1c (W : World) (telegramid : Z) : list http_event * auth_result :=
  ([SessionOpen; Get (auth_url telegramid); SessionClose],
   match auth_1c_body W telegramid with
   | inr r => r
   | inl _ => ErrorDict "Ошибка соединения с 1С"
   end).

(** *** The routes *)

Record UserData : Type := {
  user_id : Z;
  firstname : string;
  lastname : string;
  username : string
}.

Record AuthResponse : Type := {
  status : string;
  message : string;
  fio : option string;
  position : option string
}.

(** [HTTPException(status_code, detail)] with a text as detail. *)
Record http_error : Type := {
  error_status : Z;
  error_detail : string
}.

Definition forbidden : http_error :=
  {| error_status := 403;
     error_detail := "Доступ запрещён: пользователь не является сотрудником." |}.

Definition internal_server_error : http_error :=
  {| error_status := 500; error_detail := "Internal server error" |}.

(** [words[i]] for the list of [fio.split()]. *)
Definition word (words : list string) (i : nat) : exn + string :=
  match words !! i with
  | Some w => inr w
  | None => inl (Raise (OtherException "IndexError") "list index out of range")
  end.

Definition lift_d {A} (r : exn + A) : D A := λ h, (h, r).

(** The part of [check_and_add_user] that runs on the open
    connection. *)
Definition register_user (W : World) (data : UserData) (fio job_title : string)
    : D AuthResponse :=
  do* exists_ := user_exists W (user_id data) in
  if negb exists_ then
    do* first_name :=
      (if negb (bool_decide (fio = EmptyString))
       then lift_d (word (py_split W fio) 1) else dret (firstname data)) in
    do* last_name :=
      (if negb (bool_decide (fio = EmptyString))
       then lift_d (word (py_split W fio) 0) else dret (lastname data)) in
    do* _ := add_user_to_db W (user_id data) (username data) first_name last_name in
    dret {| status := "created"; message := "User successfully added.";
            fio := Some fio; position := Some job_title |}
  else
    dret {| status := "exists"; message := "User already exists.";
            fio := Some fio; position := Some job_title |}.

(** [POST /v1/auth]. *)
Definition check_and_add_user (W : World) (data : UserData)
    : list http_event * list dbcmd * (http_error + AuthResponse) :=
  let '(http, employee) :=
    if negb (user_id data =? 311362872)%Z then auth_1c W (user_id data)
    else ([], Employee "Крохалев Леонтий Михайлович" "Разработчик") in
  match employee with
  | ErrorDict _ => (http, [], inl forbidden)
  | Employee fio job_title =>
      match PostgreSQL_init W [] with
      | (h, inl _) => (http, h, inl internal_server_error)
      | (h, inr _) =>
          let '(h', r) := register_user W data fio job_title h in
          let '(h'', _) := connection_close W h' in
          (http, h'',
           match r with
           | inl _ => inl internal_server_error
           | inr response => inr response
           end)
      end
  end.

Record LoggData : Type := {
  log_user_id : Z;
  log_query : string;
  log_ai_response : string;
  log_status : Z;
  log_hashes : list string;
  log_category : string
}.

(** [POST /v1/log]: [True] for a logged message, the exception with
    status 500 for any failure. *)
Definition log_to_frida_db (W : World) (data : LoggData)
    : list dbcmd * (http_error + unit) :=
  match PostgreSQL_init W [] with
  | (h, inl _) => (h, inl internal_server_error)
  | (h, inr _) =>
      let '(h', r) :=
        log_message W (log_user_id data) (log_query data) (log_ai_response data)
                    (log_status data =? 1)%Z (log_hashes data) (log_category data) h in
      let '(h'', _) := connection_close W h' in
      (h'',
       match r with
       | inl _ => inl internal_server_error
       | inr _ => inr tt
       end)
  end.

(** *** Sample worlds *)

(** Splitting at single spaces, enough for the names below. *)
Fixpoint split_spaces (s acc : string) : list string :=
  match s with
  | EmptyString => if decide (acc = EmptyString) then [] else [acc]
  | String a s' =>
      if decide (a = Ascii.ascii_of_nat 32) then
        (if decide (acc = EmptyString) then [] else [acc]) ++ split_spaces s' EmptyString
      else split_spaces s' (acc +:+ String a EmptyString)
  end.

(** The service knows one employee; the database has no user and
    accepts every command. *)
Definition world_new_employee : World :=
  {| onec := λ _, inr (200%Z, inr (PDict [("fio", PStr "Ivanov Ivan Ivanovich");
                                          ("jobTitle", PStr "Engineer")]));
     lax_str := λ _, inl (Raise (OtherException "ValidationError") "str expected");
     py_split := λ s, split_spaces s EmptyString;
     server := λ _ _, inr [] |}.

(** The service answers with an empty object. *)
Definition world_unknown : World :=
  {| onec := λ _, inr (200%Z, inr (PDict []));
     lax_str := λ _, inl (Raise (OtherException "ValidationError") "str expected");
     py_split := λ s, split_spaces s EmptyString;
     server := λ _ _, inr [] |}.

(** The employee has a single name; the database has no user. *)
Definition world_single_name : World :=
  {| onec := λ _, inr (200%Z, inr (PDict [("fio", PStr "Cher");
                                          ("jobTitle", PStr "Singer")]));
     lax_str := λ _, inl (Raise (OtherException "ValidationError") "str expected");
     py_split := λ s, split_spaces s EmptyString;
     server := λ _ _, inr [] |}.

(** The database refuses the second topic hash. *)
Definition world_hash_conflict : World :=
  {| onec := λ _, inl (Raise ConnectionError "unreachable");
     lax_str := λ _, inl (Raise (OtherException "ValidationError") "str expected");
     py_split := λ s, split_spaces s EmptyString;
     server := λ h c,
       match c with
       | Execute _ [_; SStr "h2"] =>
           inl (Raise (OtherException "IntegrityError") "duplicate key")
       | Execute _ [_; _; _; _; _] => inr [[SInt 7]]
       | _ => inr []
       end |}.

(** The database accepts everything but the closing of the cursor. *)
Definition world_stuck_cursor : World :=
  {| onec := λ _, inl (Raise ConnectionError "unreachable");
     lax_str := λ _, inl (Raise (OtherException "ValidationError") "str expected");
     py_split := λ s, split_spaces s EmptyString;
     server := λ h c,
       match c with
       | CloseCursor => inl (Raise (OtherException "InterfaceError") "cursor already closed")
       | Execute _ [_; _; _; _; _] => inr [[SInt 7]]
       | _ => inr []
       end |}.

End Frida.

(** ** Topics by their hashes ([PostgreSQL.get_topics_texts_by_hashs]) *)

Module Topics.

(** [sep.join(parts)]. *)
Fixpoint join (sep : string) (parts : list string) : string :=
  match parts with
  | [] => EmptyString
  | [p] => p
  | p :: rest => p +:+ sep +:+ join sep rest
  end.

(** The statement for [n] hashes: one [%s] per hash inside [IN (...)]. *)
Definition topics_sql (n : nat) : string :=
  "
                SELECT book_name, text, url
                FROM frida_storage fs
                WHERE fs.hash IN (" +:+ join ", " (replicate n "%s") +:+ ")
            ".

(** [get_topics_texts_by_hashs]: nothing is sent for an empty tuple; an
    exception of the statement is logged and an empty list returned. *)
Definition get_topics_texts_by_hashs (W : Frida.World) (hashs : list string)
    : Frida.D (list Frida.row) :=
  match hashs with
  | [] => Frida.dret []
  | _ =>
      Frida.dtry
        (Frida.send_cmd W (Frida.Execute (topics_sql (length hashs))
                             (Frida.SStr <$> hashs)))
        (λ _, Frida.dret [])
  end.

(** The number of occurrences of a character in a string. *)
Fixpoint count_char (a : Ascii.ascii) (s : string) : nat :=
  match s with
  | EmptyString => 0
  | String b s' => (if decide (a = b) then 1 else 0) + count_char a s'
  end.

(** The percent sign. *)
Definition percent : Ascii.ascii := Ascii.ascii_of_nat 37.

End Topics.

(** ** Searching addresses ([routes/redis_routes/redis_routes.py]) *)

Module Addresses.

(** [data[key]] for a key that is a string: the value of a dict,
    [KeyError] for a missing key, [TypeError] for a value that is not a
    dict, with the message of the type of the value. *)
Definition py_getitem (data : Frida.pyval) (key : string) : exn + Frida.pyval :=
  match data with
  | Frida.PDict d =>
      match Frida.assoc key d with
      | Some v => inr v
      | None => inl (Raise (OtherException "KeyError") ("'" +:+ key +:+ "'"))
      end
  | Frida.PList _ =>
      inl (Raise (OtherException "TypeError")
                 "list indices must be integers or slices, not str")
  | Frida.PStr _ =>
      inl (Raise (OtherException "TypeError")
                 "string indices must be integers, not 'str'")
  | _ =>
      inl (Raise (OtherException "TypeError")
                 ("'" +:+ Frida.type_name data +:+ "' object is not subscriptable"))
  end.

(** [data.get(key, default)]. *)
Definition py_get_default (data : Frida.pyval) (key : string)
    (default_value : Frida.pyval) : exn + Frida.pyval :=
  match data with
  | Frida.PDict d => inr (default default_value (Frida.assoc key d))
  | _ => inl (Frida.no_attribute_get data)
  end.

(** The arguments of [RedisAddressModel(...)], and the model that the
    validation makes of them. *)
Record address : Type := {
  id : Frida.pyval;
  address_text : Frida.pyval;
  territory_id : Frida.pyval;
  territory_name : Frida.pyval;
  conn_type : Frida.pyval
}.

(** The world outside: [str.lower()]; the answer of the search of the
    index [idx:adds] to a query with paging 0, 40 (an exception, or the
    documents, each given by what [json.loads(doc.json)] makes of it);
    and the validation of [RedisAddressModel]. *)
Record World : Type := {
  py_lower : string → string;
  search : string → exn + list (exn + Frida.pyval);
  RedisAddressModel : address → exn + address
}.

(** What the route raises: [HTTPException(404, detail)], or
    [HTTPException(500, detail=str(e))] for the exception [e]. *)
Inductive route_error : Type :=
| NotFound (detail : string)
| ServerError (cause : exn).

Definition ebind {A B} (r : exn + A) (k : A → exn + B) : exn + B :=
  match r with
  | inl e => inl e
  | inr a => k a
  end.

(** The body of the [for] loop for one document: the model to append,
    if any. *)
Definition address_of (W : World) (doc : exn + Frida.pyval)
    : exn + option address :=
  ebind doc (λ data,
  ebind (py_getitem data "territoryId") (λ t,
  match t with
  | Frida.PNone => inr None
  | _ =>
      ebind (py_getitem data "id") (λ i,
      ebind (py_get_default data "addressShort" Frida.PNone) (λ short,
      ebind (if Frida.py_truthy short then inr short
             else py_get_default data "title" (Frida.PStr EmptyString)) (λ a,
      ebind (py_getitem data "territoryId") (λ tid,
      ebind (py_getitem data "territory") (λ tn,
      ebind (py_get_default data "conn_type" Frida.PNone) (λ ct,
      ebind (RedisAddressModel W
               {| id := i; address_text := a; territory_id := tid;
                  territory_name := tn; conn_type := ct |}) (λ m,
      inr (Some m))))))))
  end)).

(** The [for] loop with the list [addresses_models]. *)
Fixpoint collect (W : World) (docs : list (exn + Frida.pyval))
    (addresses_models : list address) : exn + list address :=
  match docs with
  | [] => inr addresses_models
  | doc :: rest =>
      match address_of W doc with
      | inl e => inl e
      | inr (Some m) => collect W rest (addresses_models ++ [m])
      | inr None => collect W rest addresses_models
      end
  end.

(** [GET /redis_addresses]. *)
Definition get_addresses (W : World) (query_address : string)
    : route_error + list address :=
  match search W (py_lower W query_address) with
  | inl e => inl (ServerError e)
  | inr docs =>
      match docs with
      | [] => inl (NotFound "No addresses found")
      | _ =>
          match collect W docs [] with
          | inl e => inl (ServerError e)
          | inr models => inr models
          end
      end
  end.

(** A document is well formed when the loop body does not raise on
    it. *)
Definition well_formed (W : World) (doc : exn + Frida.pyval) : Prop :=
  ∃ r, address_of W doc = inr r.


(** A world whose index holds a good address followed by a document
    that is not JSON. *)
Definition world_bad_document : World :=
  {| py_lower := λ s, s;
     search := λ _,
       inr [inr (Frida.PDict [("id", Frida.PInt 7);
                              ("title", Frida.PStr "Lenina 1");
                              ("territoryId", Frida.PStr "t1");
                              ("territory", Frida.PStr "Center")]);
            inl (Raise ValueError "Expecting value: line 1 column 1 (char 0)")];
     RedisAddressModel := λ a, inr a |}.

End Addresses.

(** * Auxiliary definitions for the statements *)



(** The trace of attempts [first], ..., [first + extra] with the delay
    [d] between two consecutive ones. *)
Fixpoint attempts_trace {A} (d : Z) (fn : nat → M A) (first extra : nat)
    : list event :=
  match extra with
  | O => trace_of (fn first)
  | S extra' =>
      trace_of (fn first) ++ EvSleep d :: attempts_trace d fn (S first) extra'
  end.

(** What the constructors at the start of one run of the body of [h]
    give: the exception that ends the run before the transport is
    called, or the credential that the transport call carries.  The
    Mistral client takes the key as it is. *)
Definition client_of (E : Env) (h : handler_ref) (key : option string)
    : exn + option string :=
  match h with
  | MistralRequest => inr key
  | OpenAIResponseRequest =>
      match (if truthy (PROXY E)
             then AsyncClient E (default EmptyString (PROXY E))
             else inr tt) with
      | inl e => inl e
      | inr _ =>
          match AsyncOpenAI E key with
          | inl e => inl e
          | inr k => inr (Some k)
          end
      end
  | DeepseekRequest =>
      match AsyncOpenAI E key with
      | inl e => inl e
      | inr k => inr (Some k)
      end
  end.

(** The failures that the retry policy names: a timeout, a connection
    failure, an invalid argument. *)
Definition retryable_cause (e : exn) : Prop :=
  ∃ msg, e = Raise TimeoutError msg ∨ e = Raise ConnectionError msg
         ∨ e = Raise ValueError msg.


(** The models for which [try_model] was entered, in order. *)
Definition tried (tr : list event) : list string :=
  omap (λ ev, match ev with EvTryModel m => Some m | _ => None end) tr.

(** The third argument of the handler call in [try_model]: a single
    string for the OpenAI handler, two messages for the others. *)
Definition rendered_request (handler : handler_ref)
    (input_type query context history : string) : payload :=
  if decide (handler = OpenAIResponseRequest) then
    PString (default EmptyString (PROMPT_TEMPLATES !! input_type) +:+ nl +:+ nl
               +:+ labelled_sections query context history)
  else
    PMessages
      [ {| role := "system";
           content := default generic_instruction (PROMPT_TEMPLATES !! input_type) |};
        {| role := "user";
           content := labelled_sections query context history |} ].

(** The events of the attempts on the models [ms], one after the other. *)
Definition attempts_of (E : Env) (query context history input_type : string)
    (ms : list string) : list event :=
  mjoin ((λ m, trace_of (attempt E query context history input_type m)) <$> ms).

(** The attempt on model [m] raises. *)
Definition fails (E : Env) (query context history input_type : string)
    (m : string) : Prop :=
  ∃ e, outcome_of (attempt E query context history input_type m) = inl e.


(** The candidate order in the words of the specification: the explicit
    model first, followed by the default order without it, when an
    explicit model is given; else the default order. *)
Definition spec_candidate_order (explicit_model : option string) : list string :=
  match explicit_model with
  | Some m => m :: filter (λ m', m' ≠ m) DEFAULT_MODEL_ORDER
  | None => DEFAULT_MODEL_ORDER
  end.

(** The returned text in the words of the specification: the annotation
    is put in front when an explicit model was given and the succeeding
    candidate differs from it. *)
Definition spec_returned_text (explicit_model : option string)
    (candidate response_text : string) : string :=
  match explicit_model with
  | Some m =>
      if bool_decide (candidate ≠ m)
      then fallback_annotation candidate m +:+ response_text
      else response_text
  | None => response_text
  end.

(** The sum of the delays of a trace. *)
Definition total_delay (tr : list event) : Z := foldr Z.add 0%Z (sleeps tr).

(** The credential that a transport call of [h] carries when the
    handler is called with the key of its registry entry: that key,
    except that the OpenAI SDK, which also serves DeepSeek, replaces a
    missing key by the one of OpenAI in the environment. *)
Definition credential_sent (E : Env) (h : handler_ref) : option string :=
  match h with
  | MistralRequest => MISTRAL_API_KEY E
  | OpenAIResponseRequest => OPENAI_API_KEY E
  | DeepseekRequest =>
      match DEEPSEEK_API_KEY E with
      | Some k => Some k
      | None => OPENAI_API_KEY E
      end
  end.

(** A transport call goes to the handler of its model in the registry
    and carries [credential_sent]; a call made through the OpenAI SDK
    always carries a key. *)
Definition well_routed (E : Env) (ev : event) : Prop :=
  match ev with
  | EvSend h key m _ _ =>
      (∃ cfg, MODEL_CONFIG E !! m = Some cfg ∧ handler cfg = h) ∧
      key = credential_sent E h ∧
      (h ≠ MistralRequest → is_Some key)
  | _ => True
  end.

(** Mistral answers with an empty list of choices, the other providers
    with ["ok"]. *)
Definition env_empty_choices : Env :=
  {| MISTRAL_API_KEY := Some "mk"; OPENAI_API_KEY := Some "ok";
     DEEPSEEK_API_KEY := Some "dk"; PROXY := None;
     AsyncClient := λ _, inr tt;
     transport := λ h _ _ _ _,
       match h with
       | MistralRequest => inr (ChatCompletion [])
       | _ => inr (answer_of h "ok")
       end;
     future_repr := no_repr |}.

(** The proxy is configured with a URL that the HTTP client rejects. *)
Definition env_bad_proxy : Env :=
  {| MISTRAL_API_KEY := Some "mk"; OPENAI_API_KEY := Some "ok";
     DEEPSEEK_API_KEY := Some "dk"; PROXY := Some "proxy:3128";
     AsyncClient := λ _, inl (Raise ValueError "Unknown scheme for proxy URL");
     transport := λ h _ _ _ _, inr (answer_of h "ok");
     future_repr := no_repr |}.

(** Only the key of Mistral is set; a proxy is configured. *)
Definition env_no_keys : Env :=
  {| MISTRAL_API_KEY := Some "mk"; OPENAI_API_KEY := None;
     DEEPSEEK_API_KEY := None; PROXY := Some "http://proxy:3128";
     AsyncClient := λ _, inr tt;
     transport := λ h _ _ _ _, inr (answer_of h "ok");
     future_repr := no_repr |}.

(** The key of DeepSeek is not set, that of OpenAI is; Mistral is
    down. *)
Definition env_no_deepseek_key : Env :=
  {| MISTRAL_API_KEY := Some "mk"; OPENAI_API_KEY := Some "ok";
     DEEPSEEK_API_KEY := None; PROXY := None;
     AsyncClient := λ _, inr tt;
     transport := λ h _ _ _ _,
       match h with
       | MistralRequest => inl (Raise (OtherException "SDKError") "503")
       | _ => inr (answer_of h "ok")
       end;
     future_repr := no_repr |}.

(** The statements of [log_message] for a given [log_id], in order, with
    the commit at the end. *)
Definition log_statements (user_id : Z) (user_query response : string)
    (response_status : bool) (log_id : Frida.sqlval) (topic_hashs : list string)
    (category : string) : list Frida.dbcmd :=
  Frida.Execute Frida.insert_log_sql
    [Frida.SInt user_id; Frida.SStr user_query; Frida.SStr response;
     Frida.SBool response_status; Frida.SStr category]
  :: ((λ t, Frida.Execute Frida.insert_hash_sql [log_id; Frida.SStr t])
        <$> topic_hashs)
  ++ [Frida.Commit].

(** The commands that [connection_close] sends after the history [h]:
    the closing of the cursor, followed by the closing of the connection
    when the closing of the cursor did not raise. *)
Definition closing_commands (W : Frida.World) (h : list Frida.dbcmd)
    : list Frida.dbcmd :=
  match Frida.server W h Frida.CloseCursor with
  | inr _ => [Frida.CloseCursor; Frida.CloseConnection]
  | inl _ => [Frida.CloseCursor]
  end.

(** The query of [user_exists]. *)
Definition select_user (user_id : Z) : Frida.dbcmd :=
  Frida.Execute "SELECT 1 FROM users WHERE user_id = %s" [Frida.SInt user_id].

(** The statement of [add_user_to_db]. *)
Definition insert_user (user_id : Z) (username first_name last_name : string)
    : Frida.dbcmd :=
  Frida.Execute Frida.insert_user_sql
    [Frida.SInt user_id; Frida.SStr username; Frida.SStr first_name;
     Frida.SStr last_name].

(** A command that works on the tables: a statement, a commit or a
    rollback. *)
Definition is_statement (c : Frida.dbcmd) : Prop :=
  match c with
  | Frida.Execute _ _ | Frida.Commit | Frida.Rollback => True
  | _ => False
  end.

(** * Properties *)

(** Case analysis on what the transport answers. *)
Ltac case_transport :=
  match goal with
  | |- context [transport ?E ?h ?k ?m ?p ?n] =>
      destruct (transport E h k m p n)
  end.


(** ** Strings *)

Lemma append_String a s t : String a s +:+ t = String a (s +:+ t).
Proof. reflexivity. Qed.

Lemma append_assoc (s t u : string) : (s +:+ t) +:+ u = s +:+ (t +:+ u).
Proof.
  induction s as [|a s IH]; [reflexivity|].
  rewrite !append_String. by rewrite IH.
Qed.

Lemma append_empty_r (s : string) : s +:+ EmptyString = s.
Proof.
  induction s as [|a s IH]; [reflexivity|].
  rewrite append_String. by rewrite IH.
Qed.

Lemma substring_of_refl s : substring_of s s.
Proof. exists EmptyString, EmptyString. by rewrite append_empty_r. Qed.

Lemma substring_of_prefix s post : substring_of s (s +:+ post).
Proof. by exists EmptyString, post. Qed.

Lemma substring_of_append_r s t pre : substring_of s t → substring_of s (pre +:+ t).
Proof.
  intros (a & b & ->). exists (pre +:+ a), b. by rewrite append_assoc.
Qed.

Lemma substring_of_append_l s t post : substring_of s t → substring_of s (t +:+ post).
Proof.
  intros (a & b & ->). exists a, (b +:+ post). by rewrite !append_assoc.
Qed.




(** ** The registry *)

Section RegistryFacts.
Variable E : Env.

Lemma MODEL_CONFIG_mistral :
  MODEL_CONFIG E !! "mistral-large-latest"
  = Some {| api_key := MISTRAL_API_KEY E; handler := MistralRequest;
            response_field := first_choice_content |}.
Proof. reflexivity. Qed.

Lemma MODEL_CONFIG_openai :
  MODEL_CONFIG E !! "gpt-4o-mini"
  = Some {| api_key := OPENAI_API_KEY E; handler := OpenAIResponseRequest;
            response_field := output_text_of |}.
Proof. reflexivity. Qed.

Lemma MODEL_CONFIG_deepseek :
  MODEL_CONFIG E !! "deepseek/deepseek-chat-v3-0324:free"
  = Some {| api_key := DEEPSEEK_API_KEY E; handler := DeepseekRequest;
            response_field := first_choice_content |}.
Proof. reflexivity. Qed.

(** The keys of the registry are the entries of the default order. *)
Lemma MODEL_CONFIG_keys (m : string) :
  is_Some (MODEL_CONFIG E !! m) ↔ m ∈ DEFAULT_MODEL_ORDER.
Proof.
  unfold MODEL_CONFIG, DEFAULT_MODEL_ORDER.
  rewrite !lookup_insert_is_Some, lookup_empty, !elem_of_cons, elem_of_nil.
  split.
  - intros [->|[_ [->|[_ [->|[_ []%is_Some_None]]]]]]; auto.
  - intros [->|[->|[->|[]]]]; auto 10.
Qed.

(** The three entries: each handler with the key of its provider. *)
Lemma MODEL_CONFIG_entries (m : string) (cfg : model_config) :
  MODEL_CONFIG E !! m = Some cfg →
  (handler cfg = MistralRequest ∧ api_key cfg = MISTRAL_API_KEY E) ∨
  (handler cfg = OpenAIResponseRequest ∧ api_key cfg = OPENAI_API_KEY E) ∨
  (handler cfg = DeepseekRequest ∧ api_key cfg = DEEPSEEK_API_KEY E).
Proof.
  unfold MODEL_CONFIG.
  rewrite !lookup_insert_Some, lookup_empty.
  intros [[_ <-]|[_ [[_ <-]|[_ [[_ <-]|[_ ?]]]]]]; simpl; auto; done.
Qed.

Lemma MODEL_CONFIG_empty_name : MODEL_CONFIG E !! EmptyString = None.
Proof. reflexivity. Qed.

Lemma DEFAULT_MODEL_ORDER_NoDup : NoDup DEFAULT_MODEL_ORDER.
Proof. by apply (bool_decide_unpack _). Qed.
End RegistryFacts.

(** ** Traces *)

Lemma sends_app tr1 tr2 : sends (tr1 ++ tr2) = sends tr1 + sends tr2.
Proof.
  induction tr1 as [|ev tr1 IH]; [reflexivity|].
  destruct ev; simpl; rewrite IH; reflexivity.
Qed.

Lemma sleeps_app tr1 tr2 : sleeps (tr1 ++ tr2) = sleeps tr1 ++ sleeps tr2.
Proof.
  induction tr1 as [|ev tr1 IH]; [reflexivity|].
  destruct ev; simpl; rewrite IH; reflexivity.
Qed.

(** ** The retry decorator *)

Section RetryFacts.
Context {A : Type} (d : Z) (retry_on : exn → bool) (fn : nat → M A).

(** When the attempts before [first + extra] all fail with an exception
    that is retried, the outcome of the call is decided by attempt
    [first + extra]: its value, its exception when that is not retried,
    and [RetryError] when it is retried but was the last one allowed. *)
Lemma retrying_decided (extra : nat) :
  ∀ remaining first,
    extra ≤ remaining →
    (∀ k, first ≤ k < first + extra →
          ∃ e, outcome_of (fn k) = inl e ∧ retry_on e = true) →
    match outcome_of (fn (first + extra)) with
    | inr v =>
        retrying d retry_on remaining first fn
        = (attempts_trace d fn first extra, inr v)
    | inl e =>
        if retry_on e then
          extra = remaining →
          retrying d retry_on remaining first fn
          = (attempts_trace d fn first extra, inl (RetryError e))
        else
          retrying d retry_on remaining first fn
          = (attempts_trace d fn first extra, inl e)
    end.
Proof.
  induction extra as [|extra IH]; intros remaining first Hle Hfail.
  - rewrite Nat.add_0_r. unfold outcome_of.
    destruct remaining as [|remaining]; simpl;
      destruct (fn first) as [tr [e|v]]; simpl; try reflexivity;
      destruct (retry_on e); try reflexivity; intros; (reflexivity || lia).
  - destruct remaining as [|remaining]; [lia|].
    destruct (Hfail first) as (e & He & Hr); [lia|].
    specialize (IH remaining (S first)).
    replace (S first + extra) with (first + S extra) in IH by lia.
    assert (Hrest : match outcome_of (fn (first + S extra)) with
                    | inr v => retrying d retry_on remaining (S first) fn
                               = (attempts_trace d fn (S first) extra, inr v)
                    | inl e0 =>
                        if retry_on e0 then
                          extra = remaining →
                          retrying d retry_on remaining (S first) fn
                          = (attempts_trace d fn (S first) extra,
                             inl (RetryError e0))
                        else retrying d retry_on remaining (S first) fn
                             = (attempts_trace d fn (S first) extra, inl e0)
                    end).
    { apply IH; [lia|]. intros k Hk. apply Hfail. lia. }
    clear IH. unfold outcome_of in He. simpl.
    destruct (fn first) as [tr r]; simpl in *; subst r. rewrite Hr.
    destruct (outcome_of (fn (first + S extra))) as [e'|v].
    + destruct (retry_on e').
      * intros Heq. rewrite Hrest by lia. reflexivity.
      * rewrite Hrest. reflexivity.
    + rewrite Hrest. reflexivity.
Qed.

(** The trace of a retried call is a run of attempts separated by the
    delay, at most [remaining + 1] of them. *)
Lemma retrying_trace remaining :
  ∀ first, ∃ extra,
    extra ≤ remaining ∧
    trace_of (retrying d retry_on remaining first fn)
    = attempts_trace d fn first extra.
Proof.
  induction remaining as [|remaining IH]; intros first; simpl.
  - exists 0. split; [lia|]. unfold trace_of.
    destruct (fn first) as [tr [e|v]] eqn:Hfn; [destruct (retry_on e)|];
      simpl; by rewrite Hfn.
  - destruct (IH (S first)) as (extra & Hle & Htr). unfold trace_of in *.
    destruct (fn first) as [tr [e|v]] eqn:Hfn.
    + destruct (retry_on e).
      * exists (S extra). split; [lia|]. simpl. rewrite Hfn. simpl.
        destruct (retrying d retry_on remaining (S first) fn) as [tr' r'].
        simpl in *. by rewrite Htr.
      * exists 0. split; [lia|]. simpl. by rewrite Hfn.
    + exists 0. split; [lia|]. simpl. by rewrite Hfn.
Qed.

(** A projection of the events that skips the delays sees the same
    thing at every attempt. *)
Lemma attempts_trace_omap {B} (f : event → option B) (l0 : list B) first extra :
  f (EvSleep d) = None →
  (∀ n, omap f (trace_of (fn n)) = l0) →
  omap f (attempts_trace d fn first extra) = mjoin (replicate (S extra) l0).
Proof.
  intros Hd Hfn. revert first.
  induction extra as [|extra IH]; intros first; simpl.
  - rewrite Hfn. by rewrite app_nil_r.
  - rewrite omap_app, Hfn. simpl. rewrite Hd. by rewrite IH.
Qed.

Variable s : nat.
Hypothesis same_sends : ∀ n, sends (trace_of (fn n)) = s.
Hypothesis no_sleep : ∀ n, sleeps (trace_of (fn n)) = [].

Lemma attempts_trace_sends first extra :
  sends (attempts_trace d fn first extra) = S extra * s.
Proof using same_sends.
  revert first. induction extra as [|extra IH]; intros first.
  - simpl. rewrite same_sends. lia.
  - change (attempts_trace d fn first (S extra))
      with (trace_of (fn first) ++ EvSleep d :: attempts_trace d fn (S first) extra).
    rewrite sends_app, same_sends. cbn [sends]. rewrite IH. lia.
Qed.

Lemma attempts_trace_sleeps first extra :
  sleeps (attempts_trace d fn first extra) = replicate extra d.
Proof using no_sleep.
  revert first. induction extra as [|extra IH]; intros first; simpl.
  - apply no_sleep.
  - rewrite sleeps_app, no_sleep. simpl. by rewrite IH.
Qed.

(** Whatever the attempts do, no more than [remaining + 1] of them are
    made, and the delays are one fewer than the attempts. *)
Lemma retrying_counts remaining first :
  ∃ extra,
    extra ≤ remaining ∧
    trace_of (retrying d retry_on remaining first fn)
    = attempts_trace d fn first extra ∧
    sends (trace_of (retrying d retry_on remaining first fn)) = S extra * s ∧
    sleeps (trace_of (retrying d retry_on remaining first fn)) = replicate extra d.
Proof using same_sends no_sleep.
  destruct (retrying_trace remaining first) as (extra & Hle & Htr).
  exists extra. rewrite Htr.
  by rewrite attempts_trace_sends, attempts_trace_sleeps.
Qed.
End RetryFacts.

(** ** The adapters *)

Lemma retry_if_exception_type_spec (e : exn) :
  retry_if_exception_type e = true ↔ retryable_cause e.
Proof.
  unfold retryable_cause. split.
  - destruct e as [[| | |name] msg|last]; simpl; intros H; try discriminate;
      exists msg; auto.
  - intros (msg & [-> | [-> | ->]]); reflexivity.
Qed.

Lemma retry_if_exception_type_false (e : exn) :
  ¬ retryable_cause e → retry_if_exception_type e = false.
Proof.
  intros H. destruct (retry_if_exception_type e) eqn:Hr; [|done].
  by apply retry_if_exception_type_spec in Hr.
Qed.

(** Case analysis on everything that decides one run of a body. *)
Ltac body_cases E h key :=
  destruct h;
  unfold body_of, client_of, mistral_request_body,
    openai_response_request_body, deepseek_request_body, send, AsyncOpenAI;
  simpl;
  destruct (truthy (PROXY E)); simpl;
  try destruct (AsyncClient E _); simpl;
  destruct key; try destruct (OPENAI_API_KEY E); simpl;
  try case_transport; reflexivity.

Section AdapterFacts.
Variable E : Env.

(** One run of a body ends as its constructors do when they raise, and
    else as the transport call does. *)
Lemma body_of_outcome h key model_name p n :
  outcome_of (body_of E h key model_name p n)
  = match client_of E h key with
    | inl e => inl e
    | inr k => transport E h k model_name p n
    end.
Proof. body_cases E h key. Qed.

Lemma body_of_sends h key model_name p n :
  sends (trace_of (body_of E h key model_name p n))
  = match client_of E h key with inl _ => 0 | inr _ => 1 end.
Proof. body_cases E h key. Qed.

Lemma body_of_sleeps h key model_name p n :
  sleeps (trace_of (body_of E h key model_name p n)) = [].
Proof. body_cases E h key. Qed.

Lemma call_retry h key model_name p :
  call E h key model_name p
  = retry 3 2 retry_if_exception_type (body_of E h key model_name p).
Proof. destruct h; reflexivity. Qed.

(** The counts of one call: some number of attempts between 1 and 3,
    one transport call in each when the client can be built and none
    otherwise, and a delay of 2 between two attempts. *)
Lemma call_counts h key model_name p :
  ∃ extra,
    extra ≤ 2 ∧
    trace_of (call E h key model_name p)
    = attempts_trace 2 (body_of E h key model_name p) 1 extra ∧
    sends (trace_of (call E h key model_name p))
    = S extra * match client_of E h key with inl _ => 0 | inr _ => 1 end ∧
    sleeps (trace_of (call E h key model_name p)) = replicate extra 2%Z.
Proof.
  rewrite call_retry. unfold retry. change (3 - 1) with 2.
  apply retrying_counts.
  - intros n. apply body_of_sends.
  - intros n. apply body_of_sleeps.
Qed.
End AdapterFacts.

(** C5.  Each of the three adapters is its function body under the same
    retry decorator: its trace is a run of at most 3 attempts with a delay
    of 2 between two consecutive ones and nowhere else.  The body builds
    its client and then calls the transport.  When the client is built
    and the transport calls before the n-th (n at most 3) all failed
    with a timeout, a connection error or an invalid argument, the n-th
    call decides the outcome and is the last one made: a response is
    returned as the adapter's value (so also the response of a third call
    after two retried failures), an exception of any other class is
    raised as it is, and a retried exception at the third call ends the
    adapter with the single exception [RetryError].  The constructors
    are inside the retried body: when they raise, the transport is not
    called at all, and the same policy applies to their exception (three
    attempts and two delays for a retried class, one attempt for any
    other). *)
Theorem adapter_retry_policy (E : Env) (h : handler_ref)
    (key : option string) (model_name : string) (p : payload) :
  let run := call E h key model_name p in
  run = retry 3 2 retry_if_exception_type (body_of E h key model_name p) ∧
  (∃ extra, extra ≤ 2 ∧
     trace_of run = attempts_trace 2 (body_of E h key model_name p) 1 extra ∧
     sends (trace_of run) ≤ S extra ∧
     sleeps (trace_of run) = replicate extra 2%Z) ∧
  sends (trace_of run) ≤ 3 ∧
  (∀ cred, client_of E h key = inr cred →
     let out := transport E h cred model_name p in
     1 ≤ sends (trace_of run) ∧
     sleeps (trace_of run) = replicate (sends (trace_of run) - 1) 2%Z ∧
     ∀ n, 1 ≤ n ≤ 3 →
       (∀ k, 1 ≤ k < n → ∃ e, out k = inl e ∧ retryable_cause e) →
       (∀ v, out n = inr v →
             outcome_of run = inr v ∧ sends (trace_of run) = n) ∧
       (∀ e, out n = inl e → ¬ retryable_cause e →
             outcome_of run = inl e ∧ sends (trace_of run) = n) ∧
       (∀ e, out n = inl e → retryable_cause e → n = 3 →
             outcome_of run = inl (RetryError e) ∧ sends (trace_of run) = 3)) ∧
  (∀ e, client_of E h key = inl e →
     sends (trace_of run) = 0 ∧
     (retryable_cause e →
      outcome_of run = inl (RetryError e) ∧ sleeps (trace_of run) = [2; 2]%Z) ∧
     (¬ retryable_cause e →
      outcome_of run = inl e ∧ sleeps (trace_of run) = [])).
Proof.
  intros run. subst run.
  destruct (call_counts E h key model_name p) as (extra & Hle & Htr & Hs & Hz).
  split; [apply call_retry|].
  split.
  { exists extra. split; [done|]. split; [done|]. split; [|done].
    rewrite Hs. destruct (client_of E h key); lia. }
  split; [rewrite Hs; destruct (client_of E h key); lia|].
  split.
  - intros cred Hc out. subst out. rewrite Hc in Hs.
    split; [lia|]. split; [rewrite Hz, Hs; f_equal; lia|].
    clear extra Hle Htr Hs Hz.
    intros n Hn Hfail. rewrite call_retry. unfold retry. change (3 - 1) with 2.
    pose proof (retrying_decided 2%Z retry_if_exception_type
                  (body_of E h key model_name p) (n - 1) 2 1) as Hdec.
    replace (1 + (n - 1)) with n in Hdec by lia.
    rewrite body_of_outcome, Hc in Hdec.
    assert (Hpre : ∀ k, 1 ≤ k < n →
              ∃ e, outcome_of (body_of E h key model_name p k) = inl e
                   ∧ retry_if_exception_type e = true).
    { intros k Hk. rewrite body_of_outcome, Hc.
      destruct (Hfail k Hk) as (e & He & Hr). exists e.
      split; [done|]. by apply retry_if_exception_type_spec. }
    specialize (Hdec ltac:(lia) Hpre).
    assert (Hsn : sends (attempts_trace 2 (body_of E h key model_name p) 1 (n - 1)) = n).
    { rewrite (attempts_trace_sends 2 (body_of E h key model_name p) 1).
      - lia.
      - intros k. by rewrite body_of_sends, Hc. }
    split; [|split].
    + intros v Hv. rewrite Hv in Hdec. rewrite Hdec. by split.
    + intros e He Hr. apply retry_if_exception_type_false in Hr.
      rewrite He, Hr in Hdec. rewrite Hdec. by split.
    + intros e He Hr ->. apply retry_if_exception_type_spec in Hr.
      rewrite He, Hr in Hdec. rewrite Hdec by lia. by split.
  - intros e Hc. rewrite Hc in Hs. split; [lia|].
    clear extra Hle Htr Hs Hz.
    rewrite call_retry. unfold retry. change (3 - 1) with 2.
    assert (Hz : ∀ first extra,
              sleeps (attempts_trace 2 (body_of E h key model_name p) first extra)
              = replicate extra 2%Z).
    { intros first extra. apply attempts_trace_sleeps.
      intros k. apply body_of_sleeps. }
    split.
    + intros Hr. apply retry_if_exception_type_spec in Hr.
      pose proof (retrying_decided 2%Z retry_if_exception_type
                    (body_of E h key model_name p) 2 2 1) as Hdec.
      rewrite body_of_outcome, Hc, Hr in Hdec.
      rewrite Hdec; [|lia| |done].
      { unfold trace_of, outcome_of. cbn [fst snd]. by rewrite Hz. }
      intros k Hk. rewrite body_of_outcome, Hc. eauto.
    + intros Hr. apply retry_if_exception_type_false in Hr.
      pose proof (retrying_decided 2%Z retry_if_exception_type
                    (body_of E h key model_name p) 0 2 1) as Hdec.
      rewrite body_of_outcome, Hc, Hr in Hdec.
      rewrite Hdec; [|lia|intros k Hk; lia].
      unfold trace_of, outcome_of. cbn [fst snd]. by rewrite Hz.
Qed.

Lemma adapter_retry_policy_witness :
  outcome_of (call env_flaky MistralRequest (Some "mk") "mistral-large-latest"
                   (PString "x"))
  = inr (ChatCompletion ["late"])
  ∧ sends (trace_of (call env_flaky MistralRequest (Some "mk")
                          "mistral-large-latest" (PString "x"))) = 3.
Proof.
  destruct (adapter_retry_policy env_flaky MistralRequest (Some "mk")
              "mistral-large-latest" (PString "x")) as (_ & _ & _ & H & _).
  destruct (H (Some "mk") eq_refl) as (_ & _ & H3).
  destruct (H3 3) as (Hv & _ & _); [lia| |].
  - intros k Hk. exists (Raise TimeoutError "timed out").
    assert (k = 1 ∨ k = 2) as [-> | ->] by lia;
      (split; [reflexivity|exists "timed out"; auto]).
  - apply Hv. reflexivity.
Defined.

(** Three invalid-argument failures: three transport calls, two delays,
    and one exception for the caller. *)
Example deepseek_request_exhausted :
  deepseek_request env_invalid (Some "dk") "m" (PString "x")
  = ([ EvOpen OpenAIOwnSession;
       EvSend DeepseekRequest (Some "dk") "m" (PString "x") 1; EvSleep 2;
       EvOpen OpenAIOwnSession;
       EvSend DeepseekRequest (Some "dk") "m" (PString "x") 2; EvSleep 2;
       EvOpen OpenAIOwnSession;
       EvSend DeepseekRequest (Some "dk") "m" (PString "x") 3 ],
     inl (RetryError (Raise ValueError "bad request"))).
Proof. reflexivity. Qed.

(** A failure of another class is not retried. *)
Example mistral_request_not_retried :
  mistral_request env_mistral_down (Some "mk") "m" (PString "x")
  = ([ EvOpen MistralSession;
       EvSend MistralRequest (Some "mk") "m" (PString "x") 1;
       EvClose MistralSession ],
     inl (Raise (OtherException "SDKError") "503")).
Proof. reflexivity. Qed.

(** A proxy URL that the HTTP client rejects: its constructor raises
    [ValueError] inside the retried body, so the call makes three
    attempts with two delays and never reaches the transport. *)
Example openai_response_request_bad_proxy :
  openai_response_request env_bad_proxy (Some "ok") "gpt-4o-mini" (PString "x")
  = ([EvSleep 2; EvSleep 2],
     inl (RetryError (Raise ValueError "Unknown scheme for proxy URL"))).
Proof. reflexivity. Qed.

(** No key for the OpenAI SDK anywhere: the constructor raises an
    exception that is not retried, after one attempt. *)
Example deepseek_request_no_key :
  deepseek_request env_no_keys None "m" (PString "x")
  = ([], inl (Raise (OtherException "OpenAIError")
                    "The api_key client option must be set either by passing api_key to the client or by setting the OPENAI_API_KEY environment variable")).
Proof. reflexivity. Qed.

(** ** Sessions *)

(** Unfolds a retried adapter call and splits on what the constructors
    do, on every answer of the transport and on every decision of the
    retry predicate. *)
Ltac unfold_adapters :=
  unfold mistral_request, openai_response_request, deepseek_request, retry,
    mistral_request_body, openai_response_request_body, deepseek_request_body,
    send, AsyncOpenAI.

Ltac split_answers :=
  simpl;
  repeat match goal with
         | |- context [AsyncClient ?E ?u] =>
             destruct (AsyncClient E u) as [?|[]]; simpl
         | |- context [OPENAI_API_KEY ?E] =>
             destruct (OPENAI_API_KEY E); simpl
         | |- context [transport ?E ?h ?k ?m ?p ?n] =>
             destruct (transport E h k m p n); simpl
         | |- context [retry_if_exception_type ?e] =>
             destruct (retry_if_exception_type e); simpl
         end.

Ltac split_attempts := unfold_adapters; split_answers.

(** X1.  [mistral_request] leaves no session open: [async with] closes
    the Mistral client of every attempt, whether the transport call
    returned or raised, over all the retries of a call. *)
Lemma mistral_request_releases (E : Env) (key : option string)
    (model_name : string) (p : payload) :
  leaked (trace_of (mistral_request E key model_name p)) = [].
Proof. split_attempts; reflexivity. Qed.

(** X2.  With a proxy configured, the [finally] block of
    [openai_response_request] closes the client built for the proxy in
    every attempt that gets to the [try] block, whether the transport
    call returned or raised: when the OpenAI client can be built, and
    when the proxy client itself cannot, no session is left open.  The
    OpenAI client is built between the proxy client and the [try]
    block: when its constructor raises (no key anywhere), the proxy
    client that was just built stays open. *)
Lemma openai_response_request_releases_proxy (E : Env) (key : option string)
    (model_name : string) (p : payload) :
  truthy (PROXY E) = true →
  let tr := trace_of (openai_response_request E key model_name p) in
  (∀ k, AsyncOpenAI E key = inr k → leaked tr = []) ∧
  (∀ e, AsyncClient E (default EmptyString (PROXY E)) = inl e → leaked tr = []) ∧
  (∀ e, AsyncClient E (default EmptyString (PROXY E)) = inr tt →
        AsyncOpenAI E key = inl e →
        leaked tr = [ProxySession] ∧ sends tr = 0).
Proof.
  intros Hp tr. subst tr. unfold_adapters. rewrite Hp.
  destruct key as [k|]; split_answers; repeat split; intros; simplify_eq;
    reflexivity.
Qed.

(** Without a proxy there is nothing for the [finally] block to close,
    and the session of a client that was built stays open. *)
Lemma openai_response_request_leaks_without_proxy (E : Env)
    (key : option string) (model_name : string) (p : payload) (k : string) :
  truthy (PROXY E) = false →
  AsyncOpenAI E key = inr k →
  leaked (trace_of (openai_response_request E key model_name p)) ≠ [].
Proof.
  intros Hp. unfold_adapters. rewrite Hp.
  destruct key; split_answers; intros; simplify_eq; discriminate.
Qed.

(** C8.  [deepseek_request] builds its client and never closes it: no
    closing follows the opening, so every run of the function body that
    built a client, and with it every transport call, leaves one session
    open, whether the transport call returned or raised.  When a key is
    at hand (the one passed, or else the one of OpenAI in the
    environment) the client is built in every run, and a session is
    left open after one run of the body and after the whole retried
    call. *)
Theorem deepseek_request_leaves_session_open (E : Env) (key : option string)
    (model_name : string) (p : payload) :
  (∀ n, let tr := trace_of (deepseek_request_body E key model_name p n) in
        leaked tr = replicate (sends tr) OpenAIOwnSession) ∧
  (let tr := trace_of (deepseek_request E key model_name p) in
   leaked tr = replicate (sends tr) OpenAIOwnSession) ∧
  (∀ k, AsyncOpenAI E key = inr k →
     (∀ n, leaked (trace_of (deepseek_request_body E key model_name p n))
           = [OpenAIOwnSession]) ∧
     1 ≤ sends (trace_of (deepseek_request E key model_name p)) ∧
     leaked (trace_of (deepseek_request E key model_name p)) ≠ []).
Proof.
  split; [|split].
  - intros n. unfold_adapters. destruct key; split_answers; reflexivity.
  - destruct key; split_attempts; reflexivity.
  - intros k Hk. split; [|split].
    + intros n. revert Hk. unfold_adapters.
      destruct key; split_answers; intros; simplify_eq; reflexivity.
    + revert Hk. destruct key; split_attempts; intros; simplify_eq; lia.
    + revert Hk. destruct key; split_attempts; intros; simplify_eq; discriminate.
Qed.

(** ** [try_model] *)


Lemma mjoin_replicate_nil {B} n : mjoin (replicate n (@nil B)) = [].
Proof. induction n as [|n IH]; [reflexivity|]. simpl. by rewrite IH. Qed.

Section TryModelFacts.
Variable E : Env.


Lemma body_of_tried h key model_name p n :
  tried (trace_of (body_of E h key model_name p n)) = [].
Proof. body_cases E h key. Qed.


Lemma call_tried h key model_name p :
  tried (trace_of (call E h key model_name p)) = [].
Proof.
  rewrite call_retry. unfold retry.
  destruct (retrying_trace 2 retry_if_exception_type
              (body_of E h key model_name p) (3 - 1) 1) as (extra & _ & ->).
  unfold tried.
  rewrite (attempts_trace_omap _ _ _ []); [apply mjoin_replicate_nil|done|].
  intros n. apply body_of_tried.
Qed.

(** The events of [try_model]: its entry, the handler call on the
    rendered request, and the extraction when the call returned. *)
Lemma try_model_trace model key h grt it q c hist :
  trace_of (try_model E model key h grt it q c hist)
  = EvTryModel model
      :: trace_of (call E h key model (rendered_request h it q c hist))
      ++ match outcome_of (call E h key model (rendered_request h it q c hist)) with
         | inr _ => [EvExtract model]
         | inl _ => []
         end.
Proof.
  unfold try_model, rendered_request, trace_of, outcome_of.
  destruct (decide (h = OpenAIResponseRequest)); simpl;
    match goal with
    | |- context [call ?a ?b ?c ?d ?e] => destruct (call a b c d e) as [tr [e'|v]]
    end; simpl; rewrite ?app_nil_r; try reflexivity;
    match goal with |- context [grt ?r] => destruct (grt r) end;
    reflexivity.
Qed.

(** The outcome of [try_model] is that of the handler call, followed
    by the extraction: rendering the request raises nothing. *)
Lemma try_model_outcome model key h grt it q c hist :
  outcome_of (try_model E model key h grt it q c hist)
  = match outcome_of (call E h key model (rendered_request h it q c hist)) with
    | inl e => inl e
    | inr r => grt r
    end.
Proof.
  unfold try_model, rendered_request, trace_of, outcome_of.
  destruct (decide (h = OpenAIResponseRequest)); simpl;
    match goal with
    | |- context [call ?a ?b ?c ?d ?e] => destruct (call a b c d e) as [tr [e'|v]]
    end; simpl; try reflexivity;
    match goal with |- context [grt ?r] => destruct (grt r) end;
    reflexivity.
Qed.


Lemma try_model_tried model key h grt it q c hist :
  tried (trace_of (try_model E model key h grt it q c hist)) = [model].
Proof.
  rewrite try_model_trace. unfold tried. simpl. rewrite omap_app.
  fold (tried (trace_of (call E h key model (rendered_request h it q c hist)))).
  rewrite call_tried. destruct (outcome_of _); reflexivity.
Qed.
End TryModelFacts.

(** ** Prompt rendering *)

Ltac find_substring :=
  repeat first [ apply substring_of_refl
               | apply substring_of_prefix
               | apply substring_of_append_r ].

Lemma labelled_sections_contains q c hist :
  substring_of q (labelled_sections q c hist) ∧
  substring_of c (labelled_sections q c hist) ∧
  substring_of hist (labelled_sections q c hist).
Proof. unfold labelled_sections. repeat split; find_substring. Qed.

Lemma PROMPT_TEMPLATES_keys (it : string) :
  PROMPT_TEMPLATES !! it = None ↔ it ∉ ["voice"; "csv"; "text"].
Proof.
  unfold PROMPT_TEMPLATES.
  rewrite !lookup_insert_None, lookup_empty, !not_elem_of_cons.
  pose proof (not_elem_of_nil it). intuition congruence.
Qed.








(** ** The candidate order *)

Section OrderFacts.
Variable E : Env.

Lemma truthy_Some (m : string) : truthy (Some m) = true ↔ m ≠ EmptyString.
Proof. destruct m; simpl; split; intros; congruence. Qed.

(** A supported model comes first, followed by the other entries of the
    default order. *)
Lemma models_to_try_supported (m : string) :
  is_Some (MODEL_CONFIG E !! m) →
  models_to_try E (Some m)
  = inr (m :: filter (λ m', m' ≠ m) DEFAULT_MODEL_ORDER).
Proof.
  intros Hm. unfold models_to_try.
  assert (truthy (Some m) = true) as ->.
  { apply truthy_Some. intros ->. by destruct Hm. }
  by destruct Hm as [cfg ->].
Qed.

(** A non-empty model that is not in the registry is refused. *)
Lemma models_to_try_unsupported (m : string) :
  m ≠ EmptyString →
  MODEL_CONFIG E !! m = None →
  models_to_try E (Some m) = inl (unsupported_model m).
Proof.
  intros Hne Hm. unfold models_to_try.
  apply truthy_Some in Hne. by rewrite Hne, Hm.
Qed.

(** Every computed order is duplicate-free, non-empty and within the
    registry. *)
Lemma models_to_try_sound (model : option string) (order : list string) :
  models_to_try E model = inr order →
  NoDup order ∧ order ≠ [] ∧ ∀ m, m ∈ order → is_Some (MODEL_CONFIG E !! m).
Proof.
  unfold models_to_try. intros H.
  assert (Hdef : NoDup DEFAULT_MODEL_ORDER ∧ DEFAULT_MODEL_ORDER ≠ [] ∧
                 ∀ m, m ∈ DEFAULT_MODEL_ORDER → is_Some (MODEL_CONFIG E !! m)).
  { split; [apply DEFAULT_MODEL_ORDER_NoDup|]. split; [discriminate|].
    intros m. apply MODEL_CONFIG_keys. }
  destruct model as [m|]; [|by simplify_eq].
  destruct (truthy (Some m)); [|by simplify_eq].
  destruct (MODEL_CONFIG E !! m) as [cfg|] eqn:Hm; simplify_eq.
  split; [|split; [discriminate|]].
  - constructor.
    + rewrite list_elem_of_filter. tauto.
    + apply NoDup_filter, DEFAULT_MODEL_ORDER_NoDup.
  - intros m' [->|Hin%list_elem_of_filter]%elem_of_cons; [by rewrite Hm|].
    apply MODEL_CONFIG_keys. tauto.
Qed.
End OrderFacts.

(** C2, as the code has it.  Whenever [get_ai] gets to compute a
    candidate order: a non-empty explicit model comes first, followed by
    the entries of the default order other than it; with no model, or
    with the empty string as the model, the order is the default order.
    The order has no duplicate and only keys of the registry.  For
    "gpt-4o-mini" it is gpt-4o-mini, mistral-large-latest,
    deepseek/deepseek-chat-v3-0324:free, with gpt-4o-mini exactly once. *)
Theorem candidate_order_computed (E : Env) :
  (∀ model order,
     models_to_try E model = inr order →
     (∀ m, model = Some m → m ≠ EmptyString →
           order = m :: filter (λ m', m' ≠ m) DEFAULT_MODEL_ORDER) ∧
     (model = None ∨ model = Some EmptyString → order = DEFAULT_MODEL_ORDER) ∧
     NoDup order ∧
     (∀ m, m ∈ order → is_Some (MODEL_CONFIG E !! m))) ∧
  (∀ m, is_Some (MODEL_CONFIG E !! m) → ∃ order, models_to_try E (Some m) = inr order) ∧
  models_to_try E (Some "gpt-4o-mini")
  = inr ["gpt-4o-mini"; "mistral-large-latest";
         "deepseek/deepseek-chat-v3-0324:free"] ∧
  length (filter (λ m', m' = "gpt-4o-mini")
                 ["gpt-4o-mini"; "mistral-large-latest";
                  "deepseek/deepseek-chat-v3-0324:free"]) = 1.
Proof.
  split; [|split; [|split; reflexivity]].
  - intros model order Horder.
    destruct (models_to_try_sound E model order Horder) as (Hnd & _ & Hreg).
    split; [|split; [|by split]].
    + intros m -> Hne.
      assert (Hm : is_Some (MODEL_CONFIG E !! m)).
      { destruct (MODEL_CONFIG E !! m) eqn:Hm; [done|].
        rewrite models_to_try_unsupported in Horder by done. discriminate. }
      rewrite models_to_try_supported in Horder by done. congruence.
    + intros [-> | ->]; simpl in Horder; congruence.
  - intros m Hm. eexists. by apply models_to_try_supported.
Qed.

Lemma candidate_order_computed_witness :
  ["deepseek/deepseek-chat-v3-0324:free"; "mistral-large-latest"; "gpt-4o-mini"]
  = "deepseek/deepseek-chat-v3-0324:free"
      :: filter (λ m', m' ≠ "deepseek/deepseek-chat-v3-0324:free")
                DEFAULT_MODEL_ORDER.
Proof.
  destruct (candidate_order_computed env_up) as (H & _).
  destruct (H (Some "deepseek/deepseek-chat-v3-0324:free")
              ["deepseek/deepseek-chat-v3-0324:free"; "mistral-large-latest";
               "gpt-4o-mini"]) as (Hfirst & _); [reflexivity|].
  apply (Hfirst "deepseek/deepseek-chat-v3-0324:free"); [reflexivity|discriminate].
Defined.

(** The order that the code computes for the empty string is not the one
    that the words of the specification give for an explicit model. *)
Lemma candidate_order_empty_string_differs :
  models_to_try env_up (Some EmptyString) = inr DEFAULT_MODEL_ORDER ∧
  DEFAULT_MODEL_ORDER ≠ spec_candidate_order (Some EmptyString).
Proof. split; [reflexivity|discriminate]. Qed.

(** C3, as the code has it.  A non-empty model that is not a key of the
    registry makes [get_ai] raise the exception with status 400 and the
    two-field body naming the model; the trace is empty: [try_model] was
    not entered, no transport call was made and no response field was
    read. *)
Theorem get_ai_unsupported_model (E : Env) (query context history input_type m : string) :
  m ≠ EmptyString →
  MODEL_CONFIG E !! m = None →
  get_ai E query context history input_type (Some m)
  = ([], inl {| status_code := 400;
                detail := [ ("status", "error");
                            ("message", "Модель '" +:+ m +:+ "' не поддерживается") ] |}).
Proof.
  intros Hne Hm. unfold get_ai.
  by rewrite models_to_try_unsupported.
Qed.

Lemma get_ai_unsupported_model_witness :
  get_ai env_up "q" "c" "h" "text" (Some "gpt-5")
  = ([], inl {| status_code := 400;
                detail := [ ("status", "error");
                            ("message", "Модель 'gpt-5' не поддерживается") ] |}).
Proof.
  apply (get_ai_unsupported_model env_up "q" "c" "h" "text" "gpt-5");
    [discriminate|reflexivity].
Defined.

(** The empty string is not a key of the registry, and [get_ai] called
    with it answers through Mistral after one transport call. *)
Lemma get_ai_empty_string_not_refused :
  MODEL_CONFIG env_up !! EmptyString = None ∧
  (get_ai env_up "q" "c" "h" "text" (Some EmptyString)).2 = inr "ok" ∧
  sends (get_ai env_up "q" "c" "h" "text" (Some EmptyString)).1 = 1.
Proof. repeat split. Qed.

(** ** The fallback loop *)

Section LoopFacts.
Variables (E : Env) (query context history input_type : string).

Local Abbreviation attempt' := (attempt E query context history input_type).
Local Abbreviation loop := (get_ai_loop E query context history input_type).
Local Abbreviation attempts_of' := (attempts_of E query context history input_type).
Local Abbreviation fails' := (fails E query context history input_type).

Lemma attempts_of_cons m ms :
  attempts_of' (m :: ms) = trace_of (attempt' m) ++ attempts_of' ms.
Proof. reflexivity. Qed.

Lemma attempts_of_app ms1 ms2 :
  attempts_of' (ms1 ++ ms2) = attempts_of' ms1 ++ attempts_of' ms2.
Proof.
  induction ms1 as [|m ms1 IH]; [reflexivity|].
  rewrite <- app_comm_cons, !attempts_of_cons, IH. by rewrite app_assoc.
Qed.

(** The loop stops at the first candidate whose attempt returns: the
    trace holds the attempts up to that one and nothing of the
    candidates behind it. *)
Lemma get_ai_loop_first_success original pre cand post t last_error :
  Forall fails' pre →
  outcome_of (attempt' cand) = inr t →
  loop original (pre ++ cand :: post) last_error
  = (attempts_of' (pre ++ [cand]), inr (returned_text original cand t)).
Proof.
  intros Hpre Hcand. revert last_error.
  induction Hpre as [|m pre [e He] _ IH]; intros last_error; simpl.
  - unfold outcome_of in Hcand. unfold attempts_of, trace_of. simpl.
    destruct (attempt' cand) as [tr r]; simpl in *; subst r.
    by rewrite app_nil_r.
  - rewrite attempts_of_cons. unfold outcome_of, trace_of in *.
    destruct (attempt' m) as [tr r]; simpl in *; subst r.
    by rewrite IH.
Qed.

(** When every attempt raises, the loop runs through all candidates
    and the exception of the last one is the one reported. *)
Lemma get_ai_loop_all_fail original models last_error last_model e :
  Forall fails' models →
  last models = Some last_model →
  outcome_of (attempt' last_model) = inl e →
  loop original models last_error
  = (attempts_of' models, inl (all_models_failed E (Some e))).
Proof.
  intros Hall. revert last_error.
  induction Hall as [|m ms [e' He'] _ IH]; intros last_error Hlast He;
    [discriminate|].
  simpl. rewrite attempts_of_cons. unfold outcome_of, trace_of in *.
  destruct ms as [|m2 ms].
  - simpl in Hlast. simplify_eq.
    destruct (attempt' last_model) as [tr r]; simpl in *; subst r.
    by simplify_eq.
  - destruct (attempt' m) as [tr r]; simpl in He'; subst r.
    rewrite (IH (Some e')); [reflexivity| |done].
    by rewrite last_cons_cons in Hlast.
Qed.

Lemma attempt_tried (m : string) :
  is_Some (MODEL_CONFIG E !! m) → tried (trace_of (attempt' m)) = [m].
Proof.
  intros [cfg Hcfg]. unfold attempt. rewrite Hcfg. unfold lift, bind.
  pose proof (try_model_tried E m (api_key cfg) (handler cfg)
                (response_field cfg) input_type query context history) as Ht.
  unfold trace_of in *.
  by destruct (try_model E m _ _ _ _ _ _ _) as [tr r].
Qed.

Lemma attempts_of_tried (ms : list string) :
  (∀ m, m ∈ ms → is_Some (MODEL_CONFIG E !! m)) →
  tried (attempts_of' ms) = ms.
Proof.
  induction ms as [|m ms IH]; intros Hreg; [reflexivity|].
  rewrite attempts_of_cons. unfold tried in *. rewrite omap_app.
  fold (tried (trace_of (attempt' m))).
  rewrite attempt_tried by (apply Hreg; left).
  rewrite IH; [reflexivity|]. intros m' Hm'. apply Hreg. by right.
Qed.
End LoopFacts.

(** ** The returned text *)

Lemma returned_text_fallback (m cand t : string) :
  m ≠ EmptyString → cand ≠ m →
  returned_text (Some m) cand t = fallback_annotation cand m +:+ t.
Proof.
  intros Hm Hc. unfold returned_text, fallback_annotation.
  apply truthy_Some in Hm. rewrite Hm.
  rewrite bool_decide_eq_true_2 by done. simpl.
  by rewrite !append_assoc.
Qed.

Lemma returned_text_unmodified (model : option string) (cand t : string) :
  model = None ∨ model = Some EmptyString ∨ model = Some cand →
  returned_text model cand t = t.
Proof.
  intros [->|[->| ->]]; try reflexivity.
  unfold returned_text. rewrite bool_decide_eq_false_2 by tauto.
  by rewrite andb_false_r.
Qed.

(** [get_ai] stops at the first candidate whose attempt returns. *)
Lemma get_ai_stops_at_success (E : Env) (query context history input_type : string)
    (model : option string) (pre post : list string) (cand t : string) :
  models_to_try E model = inr (pre ++ cand :: post) →
  Forall (fails E query context history input_type) pre →
  outcome_of (attempt E query context history input_type cand) = inr t →
  get_ai E query context history input_type model
  = (attempts_of E query context history input_type (pre ++ [cand]),
     inr (returned_text model cand t)).
Proof.
  intros Horder Hpre Hcand. unfold get_ai. rewrite Horder.
  by apply get_ai_loop_first_success.
Qed.

(** C1, as the code has it.  When the attempts on the candidates before
    [cand] raise and the attempt on [cand] returns [t], [get_ai] returns
    there: its events are those of the attempts up to [cand], and
    [try_model] was entered for these candidates only.  The returned
    text is [t] with the fallback annotation in front when the model
    passed is a non-empty string other than [cand]; it is [t] itself
    when no model was passed, when the empty string was passed, and when
    [cand] is the model passed. *)
Theorem get_ai_first_success (E : Env) (query context history input_type : string)
    (model : option string) (order pre post : list string) (cand t : string) :
  models_to_try E model = inr order →
  order = pre ++ cand :: post →
  Forall (fails E query context history input_type) pre →
  outcome_of (attempt E query context history input_type cand) = inr t →
  ∃ text,
    get_ai E query context history input_type model
    = (attempts_of E query context history input_type (pre ++ [cand]), inr text) ∧
    tried (get_ai E query context history input_type model).1 = pre ++ [cand] ∧
    (∀ m, model = Some m → m ≠ EmptyString → cand ≠ m →
          text = fallback_annotation cand m +:+ t) ∧
    (model = None ∨ model = Some EmptyString ∨ model = Some cand → text = t).
Proof.
  intros Horder -> Hpre Hcand.
  exists (returned_text model cand t).
  assert (Hget : get_ai E query context history input_type model
                 = (attempts_of E query context history input_type (pre ++ [cand]),
                    inr (returned_text model cand t))).
  { by apply (get_ai_stops_at_success _ _ _ _ _ _ pre post). }
  split; [exact Hget|]. split; [|split].
  - rewrite Hget. simpl. apply attempts_of_tried.
    destruct (models_to_try_sound E model _ Horder) as (_ & _ & Hreg).
    intros m Hm. apply Hreg.
    rewrite elem_of_app, list_elem_of_singleton in Hm.
    rewrite elem_of_app, elem_of_cons. tauto.
  - intros m -> Hne Hc. by apply returned_text_fallback.
  - apply returned_text_unmodified.
Qed.

Lemma get_ai_first_success_witness :
  ∃ text,
    get_ai env_mistral_down "q" "c" "h" "text" (Some "mistral-large-latest")
    = (attempts_of env_mistral_down "q" "c" "h" "text"
         (["mistral-large-latest"] ++ ["deepseek/deepseek-chat-v3-0324:free"]),
       inr text) ∧
    tried (get_ai env_mistral_down "q" "c" "h" "text"
                  (Some "mistral-large-latest")).1
    = ["mistral-large-latest"] ++ ["deepseek/deepseek-chat-v3-0324:free"] ∧
    (∀ m, Some "mistral-large-latest" = Some m → m ≠ EmptyString →
          "deepseek/deepseek-chat-v3-0324:free" ≠ m →
          text = fallback_annotation "deepseek/deepseek-chat-v3-0324:free" m +:+ "ok") ∧
    (Some "mistral-large-latest" = None
     ∨ Some "mistral-large-latest" = Some EmptyString
     ∨ Some "mistral-large-latest" = Some "deepseek/deepseek-chat-v3-0324:free" →
     text = "ok").
Proof.
  apply (get_ai_first_success env_mistral_down "q" "c" "h" "text"
           (Some "mistral-large-latest")
           ["mistral-large-latest"; "deepseek/deepseek-chat-v3-0324:free";
            "gpt-4o-mini"]
           ["mistral-large-latest"] ["gpt-4o-mini"]
           "deepseek/deepseek-chat-v3-0324:free" "ok").
  - reflexivity.
  - reflexivity.
  - constructor; [|constructor].
    exists (Raise (OtherException "SDKError") "503").
    vm_compute. reflexivity.
  - vm_compute. reflexivity.
Defined.

(** With the empty string as the model, Mistral is the first candidate
    and answers; the words of the specification put the annotation in
    front of the answer (an explicit model was passed, and it is not the
    candidate), the code returns the answer as it is. *)
Lemma get_ai_empty_string_not_annotated :
  models_to_try env_up (Some EmptyString)
  = inr ([] ++ "mistral-large-latest"
            :: ["deepseek/deepseek-chat-v3-0324:free"; "gpt-4o-mini"]) ∧
  outcome_of (attempt env_up "q" "c" "h" "text" "mistral-large-latest") = inr "ok" ∧
  (get_ai env_up "q" "c" "h" "text" (Some EmptyString)).2 = inr "ok" ∧
  (get_ai env_up "q" "c" "h" "text" (Some EmptyString)).2
  ≠ inr (spec_returned_text (Some EmptyString) "mistral-large-latest" "ok").
Proof. repeat split. vm_compute. discriminate. Qed.

(** C4.  When the attempt on every candidate raises, [get_ai] raises the
    exception with status 500 whose body has the three fields status,
    message and error, the last being [str] of the exception raised by
    the attempt on the last candidate of the order; with no model passed,
    that candidate is gpt-4o-mini, the third of the default order. *)
Theorem get_ai_all_candidates_fail (E : Env)
    (query context history input_type : string)
    (model : option string) (order : list string) :
  models_to_try E model = inr order →
  Forall (fails E query context history input_type) order →
  ∃ last_model e,
    last order = Some last_model ∧
    outcome_of (attempt E query context history input_type last_model) = inl e ∧
    get_ai E query context history input_type model
    = (attempts_of E query context history input_type order,
       inl {| status_code := 500;
              detail := [ ("status", "error");
                          ("message", "Не удалось получить ответ ни от одной модели");
                          ("error", str_exn E e) ] |}) ∧
    (model = None → last_model = "gpt-4o-mini").
Proof.
  intros Horder Hall.
  destruct (models_to_try_sound E model order Horder) as (_ & Hne & _).
  destruct (last order) as [last_model|] eqn:Hlast;
    [|by apply last_None in Hlast].
  assert (Hin : last_model ∈ order).
  { apply last_Some in Hlast as [l' ->]. rewrite elem_of_app, list_elem_of_singleton. tauto. }
  destruct (proj1 (Forall_forall _ _) Hall last_model Hin) as [e He].
  exists last_model, e. split; [done|]. split; [done|]. split.
  - unfold get_ai. rewrite Horder.
    by rewrite (get_ai_loop_all_fail _ _ _ _ _ _ _ _ last_model e).
  - intros ->. simpl in Horder. simplify_eq. by simplify_eq/=.
Qed.

Lemma get_ai_all_candidates_fail_witness :
  ∃ last_model e,
    last DEFAULT_MODEL_ORDER = Some last_model ∧
    outcome_of (attempt env_down "q" "c" "h" "text" last_model) = inl e ∧
    get_ai env_down "q" "c" "h" "text" None
    = (attempts_of env_down "q" "c" "h" "text" DEFAULT_MODEL_ORDER,
       inl {| status_code := 500;
              detail := [ ("status", "error");
                          ("message", "Не удалось получить ответ ни от одной модели");
                          ("error", str_exn env_down e) ] |}) ∧
    (@None string = None → last_model = "gpt-4o-mini").
Proof.
  apply (get_ai_all_candidates_fail env_down "q" "c" "h" "text" None
           DEFAULT_MODEL_ORDER).
  - reflexivity.
  - repeat constructor.
    + exists (Raise (OtherException "AuthenticationError")
                    "401 mistral-large-latest").
      vm_compute. reflexivity.
    + exists (Raise (OtherException "AuthenticationError")
                    "401 deepseek/deepseek-chat-v3-0324:free").
      vm_compute. reflexivity.
    + exists (Raise (OtherException "AuthenticationError") "401 gpt-4o-mini").
      vm_compute. reflexivity.
Defined.

(** ** The fallback loop, read backwards *)

Section LoopInversion.
Variables (E : Env) (query context history input_type : string).

Local Abbreviation attempt' := (attempt E query context history input_type).
Local Abbreviation loop := (get_ai_loop E query context history input_type).
Local Abbreviation attempts_of' := (attempts_of E query context history input_type).
Local Abbreviation fails' := (fails E query context history input_type).

(** A returned text comes from the first candidate whose attempt
    returns. *)
Lemma get_ai_loop_returns_inv models original last_error tr text :
  loop original models last_error = (tr, inr text) →
  ∃ pre cand post t,
    models = pre ++ cand :: post ∧ Forall fails' pre ∧
    outcome_of (attempt' cand) = inr t ∧
    text = returned_text original cand t ∧
    tr = attempts_of' (pre ++ [cand]).
Proof.
  revert last_error tr.
  induction models as [|m models IH]; intros last_error tr Hloop; simpl in Hloop;
    [discriminate|].
  destruct (attempt' m) as [tr1 [e|t]] eqn:Hm.
  - destruct (loop original models (Some e)) as [tr' r'] eqn:Hrest.
    simplify_eq. destruct (IH _ _ Hrest) as (pre & cand & post & t & -> & Hpre & Hc & -> & ->).
    exists (m :: pre), cand, post, t. split; [done|]. split.
    { constructor; [|done]. exists e. unfold outcome_of. by rewrite Hm. }
    split; [done|]. split; [done|].
    rewrite <- app_comm_cons, attempts_of_cons. unfold trace_of. by rewrite Hm.
  - simplify_eq. exists [], m, models, t. split; [done|]. split; [constructor|].
    unfold outcome_of. rewrite Hm. split; [done|]. split; [done|].
    simpl. unfold attempts_of, trace_of. simpl. rewrite Hm. simpl.
    by rewrite app_nil_r.
Qed.

(** The loop raises only after the attempt on every candidate raised. *)
Lemma get_ai_loop_raises_inv models original last_error tr err :
  loop original models last_error = (tr, inl err) →
  Forall fails' models ∧ tr = attempts_of' models ∧ status_code err = 500%Z.
Proof.
  revert last_error tr.
  induction models as [|m models IH]; intros last_error tr Hloop; simpl in Hloop.
  - simplify_eq. by repeat split.
  - destruct (attempt' m) as [tr1 [e|t]] eqn:Hm; [|discriminate].
    destruct (loop original models (Some e)) as [tr' r'] eqn:Hrest.
    simplify_eq. destruct (IH _ _ Hrest) as (Hall & -> & Hst).
    split; [|split; [|done]].
    + constructor; [|done]. exists e. unfold outcome_of. by rewrite Hm.
    + rewrite attempts_of_cons. unfold trace_of. by rewrite Hm.
Qed.
End LoopInversion.

(** One run of the loop over registered candidates: the candidates
    tried are the first [k] of the list, all but the last of them
    failed, and the run ends with the text of the k-th or, after the
    whole list, with the failure of its last candidate. *)
Lemma get_ai_loop_run (E : Env) (query context history input_type : string)
    (original : option string) (models : list string) (last_error : option exn) :
  models ≠ [] →
  (∀ m, m ∈ models → is_Some (MODEL_CONFIG E !! m)) →
  let run := get_ai_loop E query context history input_type
               original models last_error in
  ∃ k, 1 ≤ k ≤ length models ∧
       tried run.1 = take k models ∧
       run.1 = attempts_of E query context history input_type (take k models) ∧
       Forall (fails E query context history input_type) (take (k - 1) models) ∧
       match run.2 with
       | inl err =>
           k = length models ∧
           ∃ last_model e,
             last models = Some last_model ∧
             outcome_of (attempt E query context history input_type last_model)
             = inl e ∧
             err = all_models_failed E (Some e)
       | inr text =>
           ∃ cand t,
             models !! (k - 1) = Some cand ∧
             outcome_of (attempt E query context history input_type cand) = inr t ∧
             text = returned_text original cand t
       end.
Proof.
  intros Hne Hreg run. subst run.
  destruct (get_ai_loop E query context history input_type original models
                        last_error) as [tr [err|text]] eqn:Hloop.
  - pose proof Hloop as Hinv.
    apply get_ai_loop_raises_inv in Hinv as (Hall & -> & _).
    exists (length models). cbn [fst snd]. rewrite firstn_all.
    split; [destruct models; [done|simpl; lia]|].
    split; [by apply attempts_of_tried|]. split; [done|].
    split; [by apply Forall_take|]. split; [done|].
    destruct (last models) as [last_model|] eqn:Hlast;
      [|by apply last_None in Hlast].
    assert (Hin : last_model ∈ models).
    { apply last_Some in Hlast as [l' ->].
      rewrite elem_of_app, list_elem_of_singleton. tauto. }
    destruct (proj1 (Forall_forall _ _) Hall last_model Hin) as [e He].
    exists last_model, e. split; [done|]. split; [done|].
    rewrite (get_ai_loop_all_fail E query context history input_type
               original models last_error last_model e Hall Hlast He) in Hloop.
    congruence.
  - apply get_ai_loop_returns_inv in Hloop
      as (pre & cand & post & t & -> & Hpre & Hc & -> & ->).
    exists (S (length pre)). cbn [fst snd].
    assert (Htake : take (S (length pre)) (pre ++ cand :: post) = pre ++ [cand]).
    { rewrite take_app_ge by lia.
      replace (S (length pre) - length pre) with 1 by lia. reflexivity. }
    rewrite Htake. replace (S (length pre) - 1) with (length pre) by lia.
    split; [rewrite length_app; simpl; lia|].
    split.
    { apply attempts_of_tried. intros m Hm. apply Hreg.
      rewrite elem_of_app, list_elem_of_singleton in Hm.
      rewrite elem_of_app, elem_of_cons. tauto. }
    split; [done|].
    split; [by rewrite take_app_length|].
    exists cand, t. split; [|done].
    by rewrite list_lookup_middle.
Qed.

(** An exception that leaves the loop has status 500. *)
Lemma get_ai_loop_status (E : Env) (query context history input_type : string)
    (models : list string) (original : option string) (last_error : option exn) :
  match (get_ai_loop E query context history input_type
                     original models last_error).2 with
  | inl err => status_code err = 500%Z
  | inr _ => True
  end.
Proof.
  revert last_error.
  induction models as [|m models IH]; intros last_error; simpl; [reflexivity|].
  destruct (attempt E query context history input_type m) as [tr [e|t]]; [|done].
  specialize (IH (Some e)).
  by destruct (get_ai_loop E query context history input_type original
                           models (Some e)).
Qed.

(** The loop does the same for the empty string as for no model. *)
Lemma get_ai_loop_empty_string (E : Env)
    (query context history input_type : string)
    (models : list string) (last_error : option exn) :
  get_ai_loop E query context history input_type (Some EmptyString) models last_error
  = get_ai_loop E query context history input_type None models last_error.
Proof.
  revert last_error.
  induction models as [|m models IH]; intros last_error; simpl; [reflexivity|].
  destruct (attempt E query context history input_type m) as [tr [e|t]];
    [|reflexivity].
  by rewrite IH.
Qed.

(** Exhausted retries everywhere: the body shows the text of the last
    [RetryError] only. *)
Example get_ai_all_invalid :
  (get_ai env_invalid "q" "c" "h" "text" None).2
  = inl {| status_code := 500;
           detail := [ ("status", "error");
                       ("message", "Не удалось получить ответ ни от одной модели");
                       ("error", "RetryError[<Future state=finished raised>]") ] |}.
Proof. reflexivity. Qed.

(** C10.  The empty string is not a key of the registry, yet [get_ai]
    called with it does what it does with no model.  No exception with
    status 400 is raised.  The order is the default order and it is
    attempted: [try_model] is entered for mistral-large-latest first,
    and then for each next candidate of the default order after the one
    before it failed.  The call returns the text of the first candidate
    whose attempt returns, without annotation, or raises the exception
    with status 500 that carries the failure of gpt-4o-mini after all
    three were tried.  The whole result is that of the call without a
    model. *)
Theorem get_ai_empty_string_model (E : Env)
    (query context history input_type : string) :
  let run := get_ai E query context history input_type (Some EmptyString) in
  MODEL_CONFIG E !! EmptyString = None ∧
  models_to_try E (Some EmptyString) = inr DEFAULT_MODEL_ORDER ∧
  run = get_ai E query context history input_type None ∧
  (∃ k, 1 ≤ k ≤ 3 ∧
        tried run.1 = take k DEFAULT_MODEL_ORDER ∧
        run.1 = attempts_of E query context history input_type
                  (take k DEFAULT_MODEL_ORDER) ∧
        Forall (fails E query context history input_type)
               (take (k - 1) DEFAULT_MODEL_ORDER) ∧
        match run.2 with
        | inl err =>
            k = 3 ∧
            ∃ e, outcome_of (attempt E query context history input_type
                                     "gpt-4o-mini") = inl e ∧
                 err = {| status_code := 500;
                          detail := [ ("status", "error");
                                      ("message", "Не удалось получить ответ ни от одной модели");
                                      ("error", str_exn E e) ] |}
        | inr text =>
            ∃ cand, DEFAULT_MODEL_ORDER !! (k - 1) = Some cand ∧
                    outcome_of (attempt E query context history input_type cand)
                    = inr text
        end) ∧
  match run.2 with
  | inl err => status_code err = 500%Z
  | inr _ => True
  end ∧
  ∀ cand t, returned_text (Some EmptyString) cand t = t.
Proof.
  intros run. subst run.
  split; [reflexivity|]. split; [reflexivity|]. split; [|split; [|split]].
  - unfold get_ai, models_to_try, truthy. cbv beta iota zeta.
    apply get_ai_loop_empty_string.
  - unfold get_ai, models_to_try, truthy. cbv beta iota zeta.
    destruct (get_ai_loop_run E query context history input_type
                (Some EmptyString) DEFAULT_MODEL_ORDER None)
      as (k & Hk & Htried & Htr & Hpre & Hend).
    { discriminate. }
    { intros m. apply MODEL_CONFIG_keys. }
    exists k. split; [exact Hk|]. split; [exact Htried|]. split; [exact Htr|].
    split; [exact Hpre|].
    destruct (get_ai_loop E query context history input_type
                (Some EmptyString) DEFAULT_MODEL_ORDER None).2 as [err|text].
    + destruct Hend as (-> & last_model & e & Hlast & He & ->).
      split; [reflexivity|]. exists e.
      cbn in Hlast. by simplify_eq.
    + destruct Hend as (cand & t & Hcand & Ht & ->). by exists cand.
  - unfold get_ai, models_to_try, truthy. cbv beta iota zeta.
    apply get_ai_loop_status.
  - reflexivity.
Qed.

(** With the empty string as the model and Mistral down, DeepSeek is
    tried next and its answer is returned as it is. *)
Example get_ai_empty_string_fallback :
  tried (get_ai env_mistral_down "q" "c" "h" "text" (Some EmptyString)).1
  = ["mistral-large-latest"; "deepseek/deepseek-chat-v3-0324:free"] ∧
  (get_ai env_mistral_down "q" "c" "h" "text" (Some EmptyString)).2 = inr "ok".
Proof. split; reflexivity. Qed.

(** ** The HTTP boundary *)

(** C9.  A request body without the field model, once validated, carries
    the model "mistral-large-latest", and the route calls [get_ai] with
    that string as the model, not with no model.  So when the candidates
    before [cand] fail and [cand], another model than
    mistral-large-latest, answers [t], the response carries [t] with the
    fallback annotation in front. *)
Theorem post_v1_ai_default_model (E : Env) (body : gmap string string)
    (request_data : Schemas.AIRequest) :
  body !! "model" = None →
  Schemas.validate body = Some request_data →
  let query := Schemas.text request_data in
  let context := Schemas.combined_context request_data in
  let history := Schemas.chat_history request_data in
  let input_type := Schemas.input_type request_data in
  Schemas.model request_data = "mistral-large-latest" ∧
  post_v1_ai E body
  = Some match get_ai E query context history input_type
                      (Some "mistral-large-latest") with
         | (tr, inr response_text) =>
             (tr, inr {| Schemas.ai_response := response_text |})
         | (tr, inl err) => (tr, inl err)
         end ∧
  ∀ pre cand post t,
    "mistral-large-latest" :: filter (λ m', m' ≠ "mistral-large-latest")
                                     DEFAULT_MODEL_ORDER
    = pre ++ cand :: post →
    Forall (fails E query context history input_type) pre →
    outcome_of (attempt E query context history input_type cand) = inr t →
    cand ≠ "mistral-large-latest" →
    ∃ tr, post_v1_ai E body
          = Some (tr, inr {| Schemas.ai_response :=
                               fallback_annotation cand "mistral-large-latest" +:+ t |}).
Proof.
  intros Hmodel Hvalid query context history input_type.
  assert (Hm : Schemas.model request_data = "mistral-large-latest").
  { unfold Schemas.validate in Hvalid. rewrite Hmodel in Hvalid.
    destruct (body !! "text"); [|done]. destruct (body !! "combined_context"); [|done].
    destruct (body !! "chat_history"); [|done]. simpl in Hvalid.
    destruct (bool_decide _); by simplify_eq. }
  assert (Hpost : post_v1_ai E body
                  = Some match get_ai E query context history input_type
                                      (Some "mistral-large-latest") with
                         | (tr, inr response_text) =>
                             (tr, inr {| Schemas.ai_response := response_text |})
                         | (tr, inl err) => (tr, inl err)
                         end).
  { unfold post_v1_ai. rewrite Hvalid. simpl. unfold get_ai_response.
    by rewrite Hm. }
  split; [exact Hm|]. split; [exact Hpost|].
  intros pre cand post t Hsplit Hpre Hcand Hne.
  assert (Horder : models_to_try E (Some "mistral-large-latest")
                   = inr (pre ++ cand :: post)).
  { rewrite <- Hsplit. apply models_to_try_supported, MODEL_CONFIG_keys. by left. }
  rewrite Hpost.
  rewrite (get_ai_stops_at_success E query context history input_type
             _ pre post cand t Horder Hpre Hcand).
  eexists. by rewrite returned_text_fallback.
Qed.

Lemma post_v1_ai_default_model_witness :
  let body : gmap string string :=
    <["text" := "q"]> (<["combined_context" := "c"]>
      (<["chat_history" := "h"]> ∅)) in
  ∃ tr, post_v1_ai env_mistral_down body
        = Some (tr, inr {| Schemas.ai_response :=
                             fallback_annotation
                               "deepseek/deepseek-chat-v3-0324:free"
                               "mistral-large-latest" +:+ "ok" |}).
Proof.
  intros body.
  destruct (post_v1_ai_default_model env_mistral_down body
              {| Schemas.text := "q"; Schemas.combined_context := "c";
                 Schemas.chat_history := "h"; Schemas.input_type := "text";
                 Schemas.model := "mistral-large-latest" |})
    as (_ & _ & H); [reflexivity|reflexivity|].
  apply (H ["mistral-large-latest"] "deepseek/deepseek-chat-v3-0324:free"
           ["gpt-4o-mini"] "ok").
  - reflexivity.
  - constructor; [|constructor].
    exists (Raise (OtherException "SDKError") "503"). vm_compute. reflexivity.
  - vm_compute. reflexivity.
  - discriminate.
Defined.

(** * Further properties of [ai.py] *)

(** ** Sessions of the other adapters *)

Lemma openai_response_request_releases_proxy_witness :
  leaked (trace_of (openai_response_request env_mistral_down (Some "ok")
                      "gpt-4o-mini" (PString "x"))) = [].
Proof.
  destruct (openai_response_request_releases_proxy env_mistral_down (Some "ok")
              "gpt-4o-mini" (PString "x")) as (H & _ & _); [reflexivity|].
  apply (H "ok"). reflexivity.
Defined.

(** No key for the OpenAI client, and a proxy: the proxy client is
    built, the constructor of the OpenAI client raises, and nothing
    closes the proxy client. *)
Example openai_response_request_no_key_leaks :
  openai_response_request env_no_keys None "gpt-4o-mini" (PString "x")
  = ([EvOpen ProxySession],
     inl (Raise (OtherException "OpenAIError")
                "The api_key client option must be set either by passing api_key to the client or by setting the OPENAI_API_KEY environment variable")).
Proof. reflexivity. Qed.

(** ** The retry decorator, read backwards *)

Section RetryInversion.
Context {A : Type} (d : Z) (retry_on : exn → bool) (fn : nat → M A).
Hypothesis one_send : ∀ n, sends (trace_of (fn n)) = 1.

(** An attempt is made only after every earlier one raised an exception
    that the predicate accepts. *)
Lemma retrying_attempts_made remaining :
  ∀ first k,
    first ≤ k →
    k - first + 1 < sends (trace_of (retrying d retry_on remaining first fn)) →
    ∃ e, outcome_of (fn k) = inl e ∧ retry_on e = true.
Proof using one_send.
  induction remaining as [|remaining IH]; intros first k Hk Hlt; simpl in Hlt.
  - pose proof (one_send first) as H1. unfold trace_of in *.
    destruct (fn first) as [tr [e|v]]; simpl in *;
      [destruct (retry_on e)|]; simpl in *; lia.
  - pose proof (one_send first) as H1. unfold trace_of, outcome_of in *.
    destruct (fn first) as [tr [e|v]] eqn:Hfn; simpl in *; [|lia].
    destruct (retry_on e) eqn:Hr; simpl in *; [|lia].
    destruct (decide (k = first)) as [->|Hne].
    + rewrite Hfn. eauto.
    + apply (IH (S first) k); [lia|].
      destruct (retrying d retry_on remaining (S first) fn) as [tr' r'].
      simpl in *. rewrite sends_app in Hlt. simpl in Hlt. lia.
Qed.
End RetryInversion.

(** X3.  In a call of any of the three adapters, the transport is called
    a k+1-th time only if the client was built and the first k calls of
    the transport all raised a timeout, a connection error or an invalid
    argument. *)
Theorem adapter_retries_only_retryable (E : Env) (h : handler_ref)
    (key : option string) (model_name : string) (p : payload) (k : nat) :
  1 ≤ k < sends (trace_of (call E h key model_name p)) →
  ∃ cred e, client_of E h key = inr cred
            ∧ transport E h cred model_name p k = inl e
            ∧ retry_if_exception_type e = true ∧ retryable_cause e.
Proof.
  intros [Hlo Hhi].
  destruct (client_of E h key) as [e0|cred] eqn:Hc.
  { destruct (call_counts E h key model_name p) as (extra & _ & _ & Hs & _).
    rewrite Hc in Hs. lia. }
  rewrite call_retry in Hhi. unfold retry in Hhi.
  destruct (retrying_attempts_made 2 retry_if_exception_type
              (body_of E h key model_name p)
              ltac:(intros n; by rewrite body_of_sends, Hc)
              (3 - 1) 1 k) as (e & He & Hr); [done|lia|].
  rewrite body_of_outcome, Hc in He.
  exists cred, e. split; [done|]. split; [done|]. split; [done|].
  by apply retry_if_exception_type_spec.
Qed.

Lemma adapter_retries_only_retryable_witness :
  ∃ cred e, client_of env_flaky MistralRequest (Some "mk") = inr cred
            ∧ transport env_flaky MistralRequest cred "m" (PString "x") 2 = inl e
            ∧ retry_if_exception_type e = true ∧ retryable_cause e.
Proof.
  apply (adapter_retries_only_retryable env_flaky MistralRequest (Some "mk")
           "m" (PString "x") 2).
  vm_compute. split; [lia|]. apply Nat.lt_succ_diag_r.
Defined.

(** ** A malformed response *)

(** A transport call that returns at once ends the adapter call. *)
Lemma adapter_call_first_answer (E : Env) (h : handler_ref)
    (key cred : option string) (model_name : string) (p : payload) (r : response) :
  client_of E h key = inr cred →
  transport E h cred model_name p 1 = inr r →
  ∃ tr, call E h key model_name p = (tr, inr r) ∧ sends tr = 1 ∧ sleeps tr = [].
Proof.
  intros Hc Hr. rewrite call_retry. unfold retry.
  pose proof (retrying_decided 2 retry_if_exception_type
                (body_of E h key model_name p) 0 (3 - 1) 1) as Hdec.
  change (1 + 0) with 1 in Hdec. rewrite body_of_outcome, Hc, Hr in Hdec.
  rewrite Hdec; [|lia|intros k Hk; lia].
  eexists. split; [reflexivity|]. simpl.
  by rewrite body_of_sends, body_of_sleeps, Hc.
Qed.

(** X4.  Reading the answer out of the response happens outside the
    retried call: when the client is built and the first transport call
    returns a response from which the text cannot be read, [try_model]
    raises the extraction error after that single call, without delay
    and without a second call. *)
Theorem try_model_extraction_not_retried (E : Env) (model : string)
    (key cred : option string) (h : handler_ref) (grt : response → exn + string)
    (it q c hist : string) (r : response) (e : exn) :
  client_of E h key = inr cred →
  transport E h cred model (rendered_request h it q c hist) 1 = inr r →
  grt r = inl e →
  outcome_of (try_model E model key h grt it q c hist) = inl e ∧
  sends (trace_of (try_model E model key h grt it q c hist)) = 1 ∧
  sleeps (trace_of (try_model E model key h grt it q c hist)) = [].
Proof.
  intros Hc Hr Hg.
  destruct (adapter_call_first_answer E h key cred model
              (rendered_request h it q c hist) r Hc Hr) as (tr & Hcall & Hs & Hz).
  rewrite try_model_trace, Hcall. simpl.
  rewrite sends_app, sleeps_app, Hs, Hz. simpl.
  split; [|done].
  rewrite try_model_outcome, Hcall. simpl. exact Hg.
Qed.

Lemma try_model_extraction_not_retried_witness :
  outcome_of (try_model env_empty_choices "mistral-large-latest" (Some "mk")
                MistralRequest first_choice_content "text" "q" "c" "h")
  = inl (Raise (OtherException "IndexError") "list index out of range") ∧
  sends (trace_of (try_model env_empty_choices "mistral-large-latest" (Some "mk")
                     MistralRequest first_choice_content "text" "q" "c" "h")) = 1 ∧
  sleeps (trace_of (try_model env_empty_choices "mistral-large-latest" (Some "mk")
                      MistralRequest first_choice_content "text" "q" "c" "h")) = [].
Proof.
  apply (try_model_extraction_not_retried env_empty_choices
           "mistral-large-latest" (Some "mk") (Some "mk") MistralRequest
           first_choice_content "text" "q" "c" "h" (ChatCompletion []));
    reflexivity.
Defined.

(** ** What [get_ai] returns and raises *)

(** X5.  A text returned by [get_ai] is the answer of the first
    candidate of the order whose attempt returns, every candidate before
    it having failed; it is that answer itself, or that answer behind
    the annotation that names the candidate and the non-empty model that
    was asked for.  The answer is never changed otherwise. *)
Theorem get_ai_returned_text_origin (E : Env)
    (query context history input_type : string) (model : option string)
    (tr : list event) (text : string) :
  get_ai E query context history input_type model = (tr, inr text) →
  ∃ order pre cand post t,
    models_to_try E model = inr order ∧
    order = pre ++ cand :: post ∧
    Forall (fails E query context history input_type) pre ∧
    outcome_of (attempt E query context history input_type cand) = inr t ∧
    (text = t ∨
     ∃ m, model = Some m ∧ m ≠ EmptyString ∧ cand ≠ m ∧
          text = fallback_annotation cand m +:+ t).
Proof.
  unfold get_ai. intros Hget.
  destruct (models_to_try E model) as [err|order] eqn:Horder; [discriminate|].
  destruct (get_ai_loop_returns_inv _ _ _ _ _ _ _ _ _ _ Hget)
    as (pre & cand & post & t & -> & Hpre & Hc & -> & _).
  exists (pre ++ cand :: post), pre, cand, post, t.
  do 4 (split; [done|]).
  destruct model as [m|]; [|by left].
  destruct (decide (m = EmptyString)) as [->|Hne]; [by left|].
  destruct (decide (cand = m)) as [->|Hc'].
  - left. apply returned_text_unmodified. auto.
  - right. exists m. by rewrite returned_text_fallback.
Qed.

Lemma get_ai_returned_text_origin_witness :
  ∃ order pre cand post t,
    models_to_try env_mistral_down (Some "mistral-large-latest") = inr order ∧
    order = pre ++ cand :: post ∧
    Forall (fails env_mistral_down "q" "c" "h" "text") pre ∧
    outcome_of (attempt env_mistral_down "q" "c" "h" "text" cand) = inr t ∧
    (returned_text (Some "mistral-large-latest")
                   "deepseek/deepseek-chat-v3-0324:free" "ok" = t ∨
     ∃ m, Some "mistral-large-latest" = Some m ∧ m ≠ EmptyString ∧ cand ≠ m ∧
          returned_text (Some "mistral-large-latest")
                        "deepseek/deepseek-chat-v3-0324:free" "ok"
          = fallback_annotation cand m +:+ t).
Proof.
  apply (get_ai_returned_text_origin env_mistral_down "q" "c" "h" "text"
           (Some "mistral-large-latest")
           (get_ai env_mistral_down "q" "c" "h" "text"
                   (Some "mistral-large-latest")).1).
  reflexivity.
Defined.

(** X6.  [get_ai] raises in two cases only.  Status 400: the model is a
    non-empty string outside the registry, and nothing was attempted.
    Status 500: an order was computed and the attempt on every one of
    its candidates raised. *)
Theorem get_ai_raises_only (E : Env)
    (query context history input_type : string) (model : option string)
    (tr : list event) (err : HTTPException) :
  get_ai E query context history input_type model = (tr, inl err) →
  (∃ m, model = Some m ∧ m ≠ EmptyString ∧ MODEL_CONFIG E !! m = None ∧
        err = unsupported_model m ∧ tr = []) ∨
  (∃ order, models_to_try E model = inr order ∧
            Forall (fails E query context history input_type) order ∧
            tr = attempts_of E query context history input_type order ∧
            status_code err = 500%Z).
Proof.
  unfold get_ai. intros Hget.
  destruct (models_to_try E model) as [err'|order] eqn:Horder.
  - left. simplify_eq. unfold models_to_try in Horder.
    destruct model as [m|]; [|discriminate].
    destruct (truthy (Some m)) eqn:Ht; [|discriminate].
    destruct (MODEL_CONFIG E !! m) eqn:Hm; [discriminate|].
    exists m. apply truthy_Some in Ht. by simplify_eq.
  - right. exists order. split; [done|].
    by eapply get_ai_loop_raises_inv.
Qed.

Lemma get_ai_raises_only_witness :
  (∃ m, @None string = Some m ∧ m ≠ EmptyString ∧ MODEL_CONFIG env_down !! m = None ∧
        (get_ai env_down "q" "c" "h" "text" None).2
        = inl (unsupported_model m)
        ∧ (get_ai env_down "q" "c" "h" "text" None).1 = []) ∨
  (∃ order, models_to_try env_down None = inr order ∧
            Forall (fails env_down "q" "c" "h" "text") order ∧
            (get_ai env_down "q" "c" "h" "text" None).1
            = attempts_of env_down "q" "c" "h" "text" order ∧
            status_code (all_models_failed env_down
              (Some (Raise (OtherException "AuthenticationError")
                           "401 gpt-4o-mini"))) = 500%Z).
Proof.
  destruct (get_ai_raises_only env_down "q" "c" "h" "text" None
              (get_ai env_down "q" "c" "h" "text" None).1
              (all_models_failed env_down
                 (Some (Raise (OtherException "AuthenticationError")
                              "401 gpt-4o-mini"))))
    as [(m & ? & _)|(order & H1 & H2 & H3 & H4)]; [reflexivity|discriminate|].
  right. exists order. by repeat split.
Defined.

(** ** The whole trace of [get_ai] *)

Lemma total_delay_app tr1 tr2 :
  total_delay (tr1 ++ tr2) = (total_delay tr1 + total_delay tr2)%Z.
Proof.
  unfold total_delay. rewrite sleeps_app.
  induction (sleeps tr1) as [|d l IH]; simpl; [done|]. rewrite IH. lia.
Qed.

Lemma total_delay_replicate tr k d :
  sleeps tr = replicate k d → total_delay tr = (Z.of_nat k * d)%Z.
Proof.
  unfold total_delay. intros ->.
  induction k as [|k IH]; [reflexivity|].
  change (replicate (S k) d) with (d :: replicate k d). simpl foldr.
  rewrite IH. lia.
Qed.

Lemma attempts_trace_Forall {A} (P : event → Prop) (d : Z) (fn : nat → M A)
    first extra :
  P (EvSleep d) →
  (∀ n, Forall P (trace_of (fn n))) →
  Forall P (attempts_trace d fn first extra).
Proof.
  intros Hd Hfn. revert first.
  induction extra as [|extra IH]; intros first; simpl; [apply Hfn|].
  apply Forall_app. split; [apply Hfn|]. constructor; [done|apply IH].
Qed.

Section TraceFacts.
Variables (E : Env) (query context history input_type : string).

Local Abbreviation attempt' := (attempt E query context history input_type).
Local Abbreviation attempts_of' := (attempts_of E query context history input_type).

(** One handler call: at most three transport calls and a delay of at
    most 4. *)
Lemma call_cost h key model_name p :
  sends (trace_of (call E h key model_name p)) ≤ 3 ∧
  (total_delay (trace_of (call E h key model_name p)) ≤ 4)%Z.
Proof.
  destruct (call_counts E h key model_name p) as (extra & Hle & _ & Hs & Hz).
  split; [rewrite Hs; destruct (client_of E h key); lia|].
  rewrite (total_delay_replicate _ _ _ Hz). lia.
Qed.

Lemma attempt_cost m :
  sends (trace_of (attempt' m)) ≤ 3 ∧
  (total_delay (trace_of (attempt' m)) ≤ 4)%Z.
Proof.
  unfold attempt. destruct (MODEL_CONFIG E !! m) as [cfg|]; simpl;
    [|split; [lia|done]].
  unfold lift, bind.
  pose proof (try_model_trace E m (api_key cfg) (handler cfg) (response_field cfg)
                input_type query context history) as Htr.
  pose proof (call_cost (handler cfg) (api_key cfg) m
                (rendered_request (handler cfg) input_type query context history))
    as [Hs Hd].
  unfold trace_of in *.
  destruct (try_model E m _ _ _ _ _ _ _) as [tr r]. simpl in *. subst tr.
  change (EvTryModel m :: ?l) with ([EvTryModel m] ++ l).
  rewrite !sends_app, !total_delay_app.
  destruct (outcome_of _); simpl; split;
    (lia || (unfold total_delay at 1 3; simpl; lia)).
Qed.

Lemma attempts_of_cost ms :
  sends (attempts_of' ms) ≤ 3 * length ms ∧
  (total_delay (attempts_of' ms) ≤ 4 * Z.of_nat (length ms))%Z.
Proof.
  induction ms as [|m ms [IHs IHd]]; [split; [simpl; lia|done]|].
  rewrite attempts_of_cons, sends_app, total_delay_app.
  destruct (attempt_cost m) as [Hs Hd]. simpl length. split; lia.
Qed.

Lemma call_well_routed cfg m p :
  MODEL_CONFIG E !! m = Some cfg →
  Forall (well_routed E) (trace_of (call E (handler cfg) (api_key cfg) m p)).
Proof.
  intros Hm. rewrite call_retry. unfold retry.
  destruct (retrying_trace 2 retry_if_exception_type
              (body_of E (handler cfg) (api_key cfg) m p) (3 - 1) 1)
    as (extra & _ & ->).
  apply attempts_trace_Forall; [done|].
  intros n.
  destruct (MODEL_CONFIG_entries E m cfg Hm) as [[Hh Hk]|[[Hh Hk]|[Hh Hk]]];
    assert (Hentry : ∃ cfg', MODEL_CONFIG E !! m = Some cfg'
                             ∧ handler cfg' = handler cfg) by eauto;
    rewrite Hh, Hk in *;
    unfold body_of, mistral_request_body, openai_response_request_body,
      deepseek_request_body, send, AsyncOpenAI, trace_of, well_routed,
      credential_sent; simpl;
    destruct (truthy (PROXY E)); simpl;
    try destruct (AsyncClient E _); simpl;
    try destruct (DEEPSEEK_API_KEY E); simpl;
    try destruct (OPENAI_API_KEY E); simpl;
    try case_transport;
    repeat constructor; try done; try exact Hentry; eauto.
Qed.

Lemma attempt_well_routed m : Forall (well_routed E) (trace_of (attempt' m)).
Proof.
  unfold attempt. destruct (MODEL_CONFIG E !! m) as [cfg|] eqn:Hm; simpl;
    [|constructor].
  unfold lift, bind.
  pose proof (try_model_trace E m (api_key cfg) (handler cfg) (response_field cfg)
                input_type query context history) as Htr.
  pose proof (call_well_routed cfg m
                (rendered_request (handler cfg) input_type query context history) Hm)
    as Hr.
  unfold trace_of in *.
  destruct (try_model E m _ _ _ _ _ _ _) as [tr r]. simpl in *. subst tr.
  constructor; [done|]. apply Forall_app. split; [done|].
  destruct (outcome_of _); by repeat constructor.
Qed.

Lemma attempts_of_well_routed ms : Forall (well_routed E) (attempts_of' ms).
Proof.
  induction ms as [|m ms IH]; [constructor|].
  rewrite attempts_of_cons. apply Forall_app. split; [apply attempt_well_routed|done].
Qed.

(** The events of [get_ai] are those of the attempts on a prefix of the
    order. *)
Lemma get_ai_trace_prefix model order :
  models_to_try E model = inr order →
  ∃ l, l `prefix_of` order ∧
       (get_ai E query context history input_type model).1 = attempts_of' l.
Proof.
  intros Horder. unfold get_ai. rewrite Horder.
  destruct (get_ai_loop E query context history input_type model order None)
    as [tr [err|text]] eqn:Hloop.
  - apply get_ai_loop_raises_inv in Hloop as (_ & -> & _). by exists order.
  - apply get_ai_loop_returns_inv in Hloop
      as (pre & cand & post & t & -> & _ & _ & _ & ->).
    exists (pre ++ [cand]). split; [|done].
    exists post. by rewrite <- app_assoc.
Qed.
End TraceFacts.

Lemma models_to_try_length (E : Env) (model : option string) (order : list string) :
  models_to_try E model = inr order → length order = 3.
Proof.
  unfold models_to_try. intros H.
  destruct model as [m|]; [|by simplify_eq].
  destruct (truthy (Some m)); [|by simplify_eq].
  destruct (MODEL_CONFIG E !! m) as [cfg|] eqn:Hm; [|discriminate].
  assert (Hin : m ∈ DEFAULT_MODEL_ORDER) by (apply (MODEL_CONFIG_keys E); eauto).
  simplify_eq.
  unfold DEFAULT_MODEL_ORDER in *.
  rewrite !elem_of_cons, elem_of_nil in Hin.
  destruct Hin as [->|[->|[->|[]]]]; reflexivity.
Qed.

(** X7.  One call of [get_ai] makes at most 9 transport calls and waits
    for at most 12 in all (3 candidates, each at most 3 calls with a
    delay of 2 between them), whatever the providers answer. *)
Theorem get_ai_bounded_work (E : Env)
    (query context history input_type : string) (model : option string) :
  sends (get_ai E query context history input_type model).1 ≤ 9 ∧
  (total_delay (get_ai E query context history input_type model).1 ≤ 12)%Z.
Proof.
  destruct (models_to_try E model) as [err|order] eqn:Horder.
  - unfold get_ai. rewrite Horder. simpl. split; [lia|done].
  - destruct (get_ai_trace_prefix E query context history input_type
                model order Horder) as (l & [k Hk] & ->).
    pose proof (models_to_try_length E model order Horder) as Hlen.
    rewrite Hk, length_app in Hlen.
    destruct (attempts_of_cost E query context history input_type l) as [Hs Hd].
    split; lia.
Qed.

(** X8.  Every transport call made by [get_ai] goes to the handler that
    the registry gives for the model named in the call.  The Mistral
    call carries the key of Mistral and the OpenAI call the key of
    OpenAI.  The DeepSeek call, which goes to openrouter.ai, carries the
    key of DeepSeek when one is set, and the key of OpenAI when none is:
    the OpenAI SDK takes it from the environment.  No call is made
    through that SDK without a key. *)
Theorem get_ai_well_routed (E : Env)
    (query context history input_type : string) (model : option string) :
  Forall (well_routed E) (get_ai E query context history input_type model).1.
Proof.
  destruct (models_to_try E model) as [err|order] eqn:Horder.
  - unfold get_ai. rewrite Horder. constructor.
  - destruct (get_ai_trace_prefix E query context history input_type
                model order Horder) as (l & _ & ->).
    apply attempts_of_well_routed.
Qed.

(** Without a key for DeepSeek, the request to openrouter.ai carries the
    key of OpenAI. *)
Example get_ai_deepseek_sends_openai_key :
  omap (λ ev, match ev with
              | EvSend h key _ _ _ => Some (h, key)
              | _ => None
              end)
       (get_ai env_no_deepseek_key "q" "c" "h" "text" None).1
  = [(MistralRequest, Some "mk"); (DeepseekRequest, Some "ok")].
Proof. reflexivity. Qed.

(** X9.  The candidates for which [try_model] is entered form a prefix
    of the computed order; none is tried twice.  When no order is
    computed, nothing is tried. *)
Theorem get_ai_tries_in_order (E : Env)
    (query context history input_type : string) (model : option string) :
  NoDup (tried (get_ai E query context history input_type model).1) ∧
  match models_to_try E model with
  | inr order =>
      tried (get_ai E query context history input_type model).1 `prefix_of` order
  | inl _ => tried (get_ai E query context history input_type model).1 = []
  end.
Proof.
  destruct (models_to_try E model) as [err|order] eqn:Horder.
  - unfold get_ai. rewrite Horder. simpl. split; [constructor|done].
  - destruct (get_ai_trace_prefix E query context history input_type
                model order Horder) as (l & Hpre & ->).
    destruct (models_to_try_sound E model order Horder) as (Hnd & _ & Hreg).
    assert (Hl : ∀ m, m ∈ l → m ∈ order).
    { destruct Hpre as [k ->]. intros m Hm. apply elem_of_app. by left. }
    rewrite attempts_of_tried by (intros m Hm; apply Hreg, Hl, Hm).
    split; [|done].
    destruct Hpre as [k ->]. by apply NoDup_app in Hnd as (? & _ & _).
Qed.

(** X10.  Whichever supported model is asked for, the computed order is
    a rearrangement of the default order: every registered model stays a
    candidate. *)
Theorem models_to_try_permutation (E : Env) (model : option string)
    (order : list string) :
  models_to_try E model = inr order → order ≡ₚ DEFAULT_MODEL_ORDER.
Proof.
  unfold models_to_try. intros H.
  destruct model as [m|]; [|by simplify_eq].
  destruct (truthy (Some m)); [|by simplify_eq].
  destruct (MODEL_CONFIG E !! m) as [cfg|] eqn:Hm; [|discriminate].
  assert (Hin : m ∈ DEFAULT_MODEL_ORDER) by (apply (MODEL_CONFIG_keys E); eauto).
  simplify_eq. unfold DEFAULT_MODEL_ORDER in *.
  rewrite !elem_of_cons, elem_of_nil in Hin.
  destruct Hin as [->|[->|[->|[]]]].
  - reflexivity.
  - apply Permutation_swap.
  - change (["gpt-4o-mini"; "mistral-large-latest";
             "deepseek/deepseek-chat-v3-0324:free"]
            ≡ₚ ["mistral-large-latest"; "deepseek/deepseek-chat-v3-0324:free"]
               ++ ["gpt-4o-mini"]).
    apply Permutation_cons_append.
Qed.

Lemma models_to_try_permutation_witness :
  ["gpt-4o-mini"; "mistral-large-latest"; "deepseek/deepseek-chat-v3-0324:free"]
  ≡ₚ DEFAULT_MODEL_ORDER.
Proof.
  apply (models_to_try_permutation env_up (Some "gpt-4o-mini")). reflexivity.
Defined.

(** ** Requests that come through the route *)

(** A category that has a template: the rendered request contains the
    template and the three texts, for every handler. *)
Lemma rendered_request_contains h it q c hist tpl :
  PROMPT_TEMPLATES !! it = Some tpl →
  let p := rendered_request h it q c hist in
  payload_contains p tpl ∧ payload_contains p q ∧ payload_contains p c ∧
  payload_contains p hist.
Proof.
  intros Htpl.
  destruct (labelled_sections_contains q c hist) as (Hq & Hc & Hh).
  unfold rendered_request, payload_contains. rewrite Htpl.
  destruct (decide (h = OpenAIResponseRequest)); simpl.
  - repeat split; eexists; (split; [apply list_elem_of_here|]);
      find_substring; assumption.
  - repeat split.
    + eexists; split; [apply list_elem_of_here|apply substring_of_refl].
    + eexists; split; [apply list_elem_of_further, list_elem_of_here|done].
    + eexists; split; [apply list_elem_of_further, list_elem_of_here|done].
    + eexists; split; [apply list_elem_of_further, list_elem_of_here|done].
Qed.

(** X11.  A body accepted by the validation of [POST /v1/ai] has one of
    the three categories, so its category has a template, and the
    request rendered from it for any handler contains that template,
    the text, the context and the history: the defaults that [try_model]
    keeps for an unknown category are out of reach of the route. *)
Theorem validated_request_has_template (body : gmap string string)
    (r : Schemas.AIRequest) (h : handler_ref) :
  Schemas.validate body = Some r →
  ∃ tpl,
    PROMPT_TEMPLATES !! Schemas.input_type r = Some tpl ∧
    let p := rendered_request h (Schemas.input_type r) (Schemas.text r)
               (Schemas.combined_context r) (Schemas.chat_history r) in
    payload_contains p tpl ∧ payload_contains p (Schemas.text r) ∧
    payload_contains p (Schemas.combined_context r) ∧
    payload_contains p (Schemas.chat_history r).
Proof.
  intros Hv. unfold Schemas.validate in Hv.
  destruct (body !! "text") as [t|]; [|done].
  destruct (body !! "combined_context") as [c|]; [|done].
  destruct (body !! "chat_history") as [hist|]; [|done]. simpl in Hv.
  destruct (bool_decide _) eqn:Hit; [|done].
  apply bool_decide_eq_true_1 in Hit. simplify_eq. simpl.
  destruct (PROMPT_TEMPLATES !! default "text" (body !! "input_type"))
    as [tpl|] eqn:Htpl.
  - exists tpl. split; [done|]. by apply rendered_request_contains.
  - apply PROMPT_TEMPLATES_keys in Htpl. done.
Qed.

Lemma validated_request_has_template_witness :
  let body : gmap string string :=
    <["text" := "q"]> (<["combined_context" := "c"]>
      (<["chat_history" := "h"]> (<["input_type" := "csv"]> ∅))) in
  ∃ tpl,
    PROMPT_TEMPLATES !! "csv" = Some tpl ∧
    let p := rendered_request OpenAIResponseRequest "csv" "q" "c" "h" in
    payload_contains p tpl ∧ payload_contains p "q" ∧
    payload_contains p "c" ∧ payload_contains p "h".
Proof.
  intros body.
  apply (validated_request_has_template body
           {| Schemas.text := "q"; Schemas.combined_context := "c";
              Schemas.chat_history := "h"; Schemas.input_type := "csv";
              Schemas.model := "mistral-large-latest" |}
           OpenAIResponseRequest).
  reflexivity.
Defined.

(** X12.  A request whose model is a non-empty string outside the
    registry is answered by the route with the status-400 exception of
    [get_ai], unchanged, and no provider is contacted. *)
Theorem post_v1_ai_unsupported_model (E : Env) (body : gmap string string)
    (r : Schemas.AIRequest) :
  Schemas.validate body = Some r →
  Schemas.model r ≠ EmptyString →
  MODEL_CONFIG E !! Schemas.model r = None →
  post_v1_ai E body = Some ([], inl (unsupported_model (Schemas.model r))).
Proof.
  intros Hv Hne Hm. unfold post_v1_ai. rewrite Hv. simpl.
  unfold get_ai_response, get_ai.
  by rewrite models_to_try_unsupported.
Qed.

Lemma post_v1_ai_unsupported_model_witness :
  post_v1_ai env_up
    (<["text" := "q"]> (<["combined_context" := "c"]>
       (<["chat_history" := "h"]> (<["model" := "gpt-5"]> ∅))))
  = Some ([], inl (unsupported_model "gpt-5")).
Proof.
  apply (post_v1_ai_unsupported_model env_up _
           {| Schemas.text := "q"; Schemas.combined_context := "c";
              Schemas.chat_history := "h"; Schemas.input_type := "text";
              Schemas.model := "gpt-5" |});
    [reflexivity|discriminate|reflexivity].
Defined.

(** * Properties of the Redis key scan *)

Lemma scan_loop_commands fuel redis pattern count :
  ∀ cursor keys tr res,
    RedisCrud.scan_loop fuel redis pattern count cursor keys = Some (tr, res) →
    (RedisCrud.Close ∉ tr) ∧ tr ≠ [].
Proof.
  induction fuel as [|fuel IH]; intros cursor keys tr res Hloop; simpl in Hloop;
    [discriminate|].
  destruct (RedisCrud.scan redis cursor pattern count) as [e|[cursor' page]].
  - simplify_eq. split; [|done]. by intros [?|[]%elem_of_nil]%elem_of_cons.
  - destruct (decide (cursor' = 0%N)).
    + simplify_eq. split; [|done]. by intros [?|[]%elem_of_nil]%elem_of_cons.
    + destruct (RedisCrud.scan_loop fuel redis pattern count cursor' _)
        as [[tr' r']|] eqn:Hrest; [|discriminate].
      simplify_eq. destruct (IH _ _ _ _ Hrest) as [Hnot _].
      split; [|done]. by intros [?|?]%elem_of_cons.
Qed.

(** X13.  Without a connection, [get_unique_keys_with_prefix] raises
    [ValueError] and sends nothing.  With a connection, however the call
    ends (with the keys, with the exception of a failed [SCAN], or with
    the exception of the closing itself), at least one [SCAN] was sent
    and the connection was closed exactly once, as the last thing
    done. *)
Theorem get_unique_keys_closes_connection (fuel : nat) (pattern : string)
    (count : N) :
  RedisCrud.get_unique_keys_with_prefix fuel pattern count None
  = Some ([], inl (Raise ValueError "Redis connection must be provided")) ∧
  ∀ redis tr res,
    RedisCrud.get_unique_keys_with_prefix fuel pattern count (Some redis)
    = Some (tr, res) →
    ∃ scans, tr = scans ++ [RedisCrud.Close] ∧ (RedisCrud.Close ∉ scans) ∧ scans ≠ [].
Proof.
  split; [reflexivity|]. intros redis tr res Hget.
  unfold RedisCrud.get_unique_keys_with_prefix in Hget.
  destruct (RedisCrud.scan_loop fuel redis pattern count 0%N ∅)
    as [[scans r]|] eqn:Hloop; [|discriminate].
  apply scan_loop_commands in Hloop.
  exists scans. destruct (RedisCrud.aclose redis); by simplify_eq.
Qed.

Lemma get_unique_keys_closes_connection_witness :
  ∃ scans,
    [RedisCrud.Scan 0 "login:*" 10000; RedisCrud.Scan 17 "login:*" 10000;
     RedisCrud.Close]%N
    = scans ++ [RedisCrud.Close] ∧ (RedisCrud.Close ∉ scans) ∧ scans ≠ [].
Proof.
  destruct (get_unique_keys_closes_connection 5 "login:*" 10000%N) as [_ H].
  apply (H RedisCrud.broken_second_page _
           (inl (Raise ConnectionError "connection reset"))).
  reflexivity.
Defined.

Lemma scan_loop_pages redis pattern count pages :
  ∀ cursor keys fuel,
    RedisCrud.pages_from redis pattern count cursor pages →
    length pages ≤ fuel →
    ∃ tr, RedisCrud.scan_loop fuel redis pattern count cursor keys
          = Some (tr, inr (keys ∪ list_to_set (mjoin pages)))
          ∧ length tr = length pages.
Proof.
  intros cursor keys fuel Hpages. revert keys fuel.
  induction Hpages as [cursor page Hscan|cursor cursor' page pages Hscan Hne _ IH];
    intros keys fuel Hfuel; (destruct fuel as [|fuel]; [simpl in Hfuel; lia|]);
    simpl; rewrite Hscan.
  - case_decide; [|done].
    exists [RedisCrud.Scan cursor pattern count]. split; [|done].
    simpl. by rewrite app_nil_r.
  - case_decide; [done|].
    destruct (IH (keys ∪ list_to_set page) fuel) as (tr & -> & Hlen);
      [simpl in Hfuel; lia|].
    exists (RedisCrud.Scan cursor pattern count :: tr).
    split; [|simpl; by rewrite Hlen].
    do 3 f_equal. rewrite list_to_set_app_L. by rewrite (assoc_L (∪)).
Qed.

(** X14.  When the server hands out its keys in pages and closing does
    not fail, the function returns, for every bound on the rounds that
    is at least the number of pages, the set of the keys of all pages: a
    key that the server repeats is there once, and the connection saw
    one [SCAN] per page and then the closing. *)
Theorem get_unique_keys_collects_pages (redis : RedisCrud.connection)
    (pattern : string) (count : N) (fuel : nat) (pages : list (list string)) :
  RedisCrud.pages_from redis pattern count 0%N pages →
  RedisCrud.aclose redis = None →
  length pages ≤ fuel →
  ∃ tr,
    RedisCrud.get_unique_keys_with_prefix fuel pattern count (Some redis)
    = Some (tr, inr (list_to_set (mjoin pages))) ∧
    length tr = S (length pages) ∧
    ∀ key, key ∈@{gset string} list_to_set (mjoin pages)
           ↔ ∃ page, page ∈ pages ∧ key ∈ page.
Proof.
  intros Hpages Hclose Hfuel.
  destruct (scan_loop_pages redis pattern count pages 0%N ∅ fuel Hpages Hfuel)
    as (tr & Hloop & Hlen).
  exists (tr ++ [RedisCrud.Close]).
  unfold RedisCrud.get_unique_keys_with_prefix. rewrite Hloop, Hclose.
  split; [by rewrite (left_id_L ∅ (∪))|].
  split; [rewrite length_app; simpl; lia|].
  intros key. rewrite elem_of_list_to_set, list_elem_of_join.
  split; intros (page & ? & ?); eauto.
Qed.

Lemma get_unique_keys_collects_pages_witness :
  ∃ tr,
    RedisCrud.get_unique_keys_with_prefix 3 "login:*" 10000%N
      (Some RedisCrud.three_pages)
    = Some (tr, inr (list_to_set (mjoin [["login:a"; "login:b"]; ["login:b"];
                                         ["login:c"]]))) ∧
    length tr = 4 ∧
    ∀ key, key ∈@{gset string}
             list_to_set (mjoin [["login:a"; "login:b"]; ["login:b"]; ["login:c"]])
           ↔ ∃ page, page ∈ [["login:a"; "login:b"]; ["login:b"]; ["login:c"]]
                     ∧ key ∈ page.
Proof.
  apply (get_unique_keys_collects_pages RedisCrud.three_pages "login:*" 10000%N 3
           [["login:a"; "login:b"]; ["login:b"]; ["login:c"]]).
  - apply RedisCrud.pages_more with (cursor' := 17%N); [reflexivity|discriminate|].
    apply RedisCrud.pages_more with (cursor' := 5%N); [reflexivity|discriminate|].
    apply RedisCrud.pages_last. reflexivity.
  - reflexivity.
  - apply le_n.
Defined.

(** * Properties of the cleanup of temporary files *)

Lemma strip_prefix_append p s : Files.strip_prefix p (p +:+ s) = Some s.
Proof.
  induction p as [|a p IH]; [reflexivity|].
  rewrite append_String. simpl. by rewrite decide_True.
Qed.

Lemma ends_with_refl s : Files.ends_with s s = true.
Proof.
  destruct s as [|a s]; [reflexivity|].
  cbn [Files.ends_with]. by rewrite bool_decide_eq_true_2.
Qed.

Lemma ends_with_append pre suffix : Files.ends_with suffix (pre +:+ suffix) = true.
Proof.
  induction pre as [|a pre IH]; [apply ends_with_refl|].
  rewrite append_String. cbn [Files.ends_with]. rewrite IH. apply orb_true_r.
Qed.

Lemma export_file_name_matches_pattern (uuid_hex : string) :
  Files.matches_temp_users (Files.export_file_name uuid_hex) = true.
Proof.
  unfold Files.matches_temp_users, Files.export_file_name.
  rewrite strip_prefix_append. apply ends_with_append.
Qed.

(** The loop removes, of the files it gets to, those that [os.remove]
    removes; it gets to all of them unless an exception other than
    [OSError] occurs. *)
Lemma remove_files_no_abort os_remove files :
  ∀ removed,
    (∀ f, f ∈ files → os_remove f ≠ Files.RaisesOther) →
    Files.remove_files os_remove files removed
    = inr (removed ++ filter (λ f, os_remove f = Files.Removed) files).
Proof.
  induction files as [|f files IH]; intros removed Hno; simpl.
  - by rewrite app_nil_r.
  - assert (Hrest : ∀ g, g ∈ files → os_remove g ≠ Files.RaisesOther).
    { intros g Hg. apply Hno. by right. }
    specialize (Hno f ltac:(left)).
    rewrite filter_cons.
    destruct (os_remove f) eqn:Hf; [| |done].
    + rewrite decide_True by done. rewrite IH by done. by rewrite <- app_assoc.
    + rewrite decide_False by done. by rewrite IH.
Qed.

Lemma remove_files_sound os_remove files :
  ∀ removed res,
    Files.remove_files os_remove files removed = res →
    ∀ f, f ∈ match res with inl l | inr l => l end →
         f ∈ removed ∨ (f ∈ files ∧ os_remove f = Files.Removed).
Proof.
  induction files as [|g files IH]; intros removed res Hres f Hf; simpl in Hres.
  - subst res. by left.
  - destruct (os_remove g) eqn:Hg.
    + destruct (IH _ _ Hres f Hf) as [Hin|[Hin Hr]].
      * apply elem_of_app in Hin as [Hin|Hin%list_elem_of_singleton]; [by left|].
        subst g. right. split; [by left|done].
      * right. split; [by right|done].
    + destruct (IH _ _ Hres f Hf) as [Hin|[Hin Hr]]; [by left|].
      right. split; [by right|done].
    + subst res. by left.
Qed.

(** X15.  [cleanup_temp_dir] removes no file outside the pattern
    [temp_users_*.json]: every file it removes was in the directory,
    matches the pattern, and was removed by [os.remove] without error.
    This holds also when listing the directory fails or an unexpected
    exception ends the loop early. *)
Theorem cleanup_temp_dir_only_matching (os_remove : string → Files.removal)
    (names : exn + list string) :
  Forall (λ f, Files.matches_temp_users f = true ∧
               os_remove f = Files.Removed ∧
               ∃ l, names = inr l ∧ f ∈ l)
         (Files.cleanup_temp_dir os_remove names).
Proof.
  apply Forall_forall. intros f Hf. unfold Files.cleanup_temp_dir in Hf.
  destruct names as [e|l]; [by apply elem_of_nil in Hf|].
  destruct (remove_files_sound os_remove (Files.glob_temp_users l) [] _ eq_refl f)
    as [Hin|[Hin Hr]].
  - by destruct (Files.remove_files _ _ _).
  - by apply elem_of_nil in Hin.
  - apply list_elem_of_filter in Hin as [Hm Hl]. eauto.
Qed.

(** X16.  When no removal raises anything but [OSError], the files
    removed are exactly the files of the directory that match the
    pattern and that [os.remove] removes, in the order of the listing: a
    file that cannot be removed is skipped and the files after it are
    still removed. *)
Theorem cleanup_temp_dir_skips_failures (os_remove : string → Files.removal)
    (names : list string) :
  (∀ f, f ∈ names → Files.matches_temp_users f = true →
        os_remove f ≠ Files.RaisesOther) →
  Files.cleanup_temp_dir os_remove (inr names)
  = filter (λ f, Files.matches_temp_users f = true ∧ os_remove f = Files.Removed)
           names.
Proof.
  intros Hno. unfold Files.cleanup_temp_dir, Files.glob_temp_users.
  rewrite remove_files_no_abort.
  - simpl. clear Hno. induction names as [|f names IH]; [done|].
    rewrite !filter_cons.
    destruct (decide (Files.matches_temp_users f = true)) as [Hm|Hm].
    + rewrite filter_cons. destruct (decide (os_remove f = Files.Removed)).
      * rewrite decide_True by done. by rewrite IH.
      * rewrite decide_False by tauto. done.
    + rewrite decide_False by tauto. done.
  - intros f [Hm Hf]%list_elem_of_filter. by apply Hno.
Qed.

Lemma cleanup_temp_dir_skips_failures_witness :
  Files.cleanup_temp_dir Files.protected_file
    (inr ["temp_users_0.json"; "temp_users_1.json"; "notes.json";
          "temp_users_2.json"])
  = filter (λ f, Files.matches_temp_users f = true
                 ∧ Files.protected_file f = Files.Removed)
           ["temp_users_0.json"; "temp_users_1.json"; "notes.json";
            "temp_users_2.json"].
Proof.
  apply (cleanup_temp_dir_skips_failures Files.protected_file).
  intros f _ _. unfold Files.protected_file. by case_decide.
Defined.

Example cleanup_temp_dir_run :
  Files.cleanup_temp_dir Files.protected_file
    (inr ["temp_users_0.json"; "temp_users_1.json"; "notes.json";
          "temp_users_.json"; "temp_users_2.json.bak"; "temp_users_2.json"])
  = ["temp_users_0.json"; "temp_users_.json"; "temp_users_2.json"].
Proof. reflexivity. Qed.

(** X17.  Whatever [uuid4().hex] is, the name of the file that the
    export route writes matches the pattern of [cleanup_temp_dir]; so a
    cleanup in which every removal succeeds removes every earlier
    export that is still in the directory. *)
Theorem export_files_are_cleaned (uuid_hex : string) :
  Files.matches_temp_users (Files.export_file_name uuid_hex) = true ∧
  ∀ names,
    Files.export_file_name uuid_hex ∈ names →
    Files.export_file_name uuid_hex
    ∈ Files.cleanup_temp_dir (λ _, Files.Removed) (inr names).
Proof.
  split; [apply export_file_name_matches_pattern|].
  intros names Hin. unfold Files.cleanup_temp_dir, Files.glob_temp_users.
  rewrite remove_files_no_abort by done. simpl.
  apply list_elem_of_filter. split; [done|].
  apply list_elem_of_filter. split; [|done].
  apply export_file_name_matches_pattern.
Qed.

Lemma export_files_are_cleaned_witness :
  Files.export_file_name "0f3a" ∈
  Files.cleanup_temp_dir (λ _, Files.Removed)
    (inr ["a.txt"; Files.export_file_name "0f3a"]).
Proof.
  destruct (export_files_are_cleaned "0f3a") as [_ H].
  apply H. apply list_elem_of_further, list_elem_of_here.
Defined.

(** * Properties of the database class and of the Frida routes *)

(** ** [auth_1c] *)

(** X18.  [auth_1c] returns an employee only when the 1C service
    answered with status 200 and a JSON object whose fields [fio] and
    [jobTitle] are both truthy and pass the validation of a [str] field;
    the session it opened is closed.  Any other status, an exception, an
    empty body or a missing field gives a dict with the key [error]. *)
Theorem auth_1c_employee_only_if (W : Frida.World) (telegramid : Z)
    (tr : list Frida.http_event) (f j : string) :
  Frida.auth_1c W telegramid = (tr, Frida.Employee f j) →
  tr = [Frida.SessionOpen; Frida.Get (Frida.auth_url telegramid);
        Frida.SessionClose] ∧
  ∃ d fio job_title,
    Frida.onec W (Frida.auth_url telegramid) = inr (200%Z, inr (Frida.PDict d)) ∧
    Frida.assoc "fio" d = Some fio ∧ Frida.py_truthy fio = true ∧
    Frida.assoc "jobTitle" d = Some job_title ∧ Frida.py_truthy job_title = true ∧
    Frida.validate_str W fio = inr f ∧ Frida.validate_str W job_title = inr j.
Proof.
  unfold Frida.auth_1c, Frida.auth_1c_body. intros H.
  injection H as <- H. split; [done|].
  destruct (Frida.onec W _) as [e|[status [e|data]]]; [done| |].
  - destruct (negb (status =? 200)%Z); done.
  - destruct (status =? 200)%Z eqn:Hs; simpl in H; [|done].
    apply Z.eqb_eq in Hs. subst status.
    destruct (Frida.py_truthy data) eqn:Hd; simpl in H; [|done].
    destruct data as [| | | | |l|d]; simpl in H; try done.
    destruct (Frida.assoc "fio" d) as [fio|] eqn:Hf; simpl in H; [|done].
    destruct (Frida.assoc "jobTitle" d) as [job|] eqn:Hj; simpl in H;
      [|by rewrite andb_false_r in H].
    destruct (Frida.py_truthy fio) eqn:Htf; simpl in H; [|done].
    destruct (Frida.py_truthy job) eqn:Htj; simpl in H; [|done].
    destruct (Frida.validate_str W fio) as [e|f'] eqn:Hvf; [done|].
    destruct (Frida.validate_str W job) as [e|j'] eqn:Hvj; [done|].
    simplify_eq. by exists d, fio, job.
Qed.

Lemma auth_1c_employee_only_if_witness :
  [Frida.SessionOpen; Frida.Get (Frida.auth_url 42); Frida.SessionClose]
  = [Frida.SessionOpen; Frida.Get (Frida.auth_url 42); Frida.SessionClose] ∧
  ∃ d fio job_title,
    Frida.onec Frida.world_new_employee (Frida.auth_url 42)
    = inr (200%Z, inr (Frida.PDict d)) ∧
    Frida.assoc "fio" d = Some fio ∧ Frida.py_truthy fio = true ∧
    Frida.assoc "jobTitle" d = Some job_title ∧ Frida.py_truthy job_title = true ∧
    Frida.validate_str Frida.world_new_employee fio = inr "Ivanov Ivan Ivanovich" ∧
    Frida.validate_str Frida.world_new_employee job_title = inr "Engineer".
Proof.
  apply (auth_1c_employee_only_if Frida.world_new_employee 42). reflexivity.
Defined.

(** ** The connection *)

(** Closing sends the closing of the cursor and then that of the
    connection, the latter only if the former did not fail; it raises
    nothing. *)
Lemma connection_close_history (W : Frida.World) (h : list Frida.dbcmd) :
  Frida.connection_close W h = (h ++ closing_commands W h, inr tt).
Proof.
  unfold Frida.connection_close, Frida.dtry, Frida.dbind, Frida.send_cmd,
    Frida.dret, closing_commands.
  destruct (Frida.server W h Frida.CloseCursor) as [e|rows] eqn:Hc; [done|].
  destruct (Frida.server W (h ++ [Frida.CloseCursor]) Frida.CloseConnection);
    by rewrite <- app_assoc.
Qed.

(** A failing [cursor.close()] leaves the connection open. *)
Example connection_close_skips_connection :
  Frida.connection_close Frida.world_stuck_cursor [Frida.Connect]
  = ([Frida.Connect; Frida.CloseCursor], inr tt).
Proof. reflexivity. Qed.

(** ** [log_message] *)

Lemma insert_hashes_history (W : Frida.World) (log_id : Frida.sqlval)
    (topic_hashs : list string) :
  ∀ h,
    let cmds := (λ t, Frida.Execute Frida.insert_hash_sql [log_id; Frida.SStr t])
                  <$> topic_hashs in
    Frida.insert_hashes W log_id topic_hashs h = (h ++ cmds, inr tt) ∨
    ∃ sent c e,
      (sent ++ [c]) `prefix_of` cmds ∧
      Frida.server W (h ++ sent) c = inl e ∧
      Frida.insert_hashes W log_id topic_hashs h = (h ++ sent ++ [c], inl e).
Proof.
  induction topic_hashs as [|t ts IH]; intros h; simpl.
  - left. unfold Frida.dret. by rewrite app_nil_r.
  - unfold Frida.dbind, Frida.send_cmd.
    set (c := Frida.Execute Frida.insert_hash_sql [log_id; Frida.SStr t]).
    destruct (Frida.server W h c) as [e|rows] eqn:Hc.
    + right. exists [], c, e. rewrite app_nil_r. simpl.
      split; [by eexists|done].
    + destruct (IH (h ++ [c])) as [Hok|(sent & c' & e & Hpre & Hfail & Hrun)].
      * left. rewrite Hok. by rewrite <- app_assoc.
      * right. exists (c :: sent), c', e.
        split; [by apply prefix_cons|].
        rewrite <- app_assoc in Hfail, Hrun. simpl in *. by rewrite Hrun.
Qed.

(** Sending a command and going on. *)
Lemma dbind_send {A} (W : Frida.World) (c : Frida.dbcmd)
    (k : list Frida.row → Frida.D A) (h : list Frida.dbcmd) :
  Frida.dbind (Frida.send_cmd W c) k h
  = match Frida.server W h c with
    | inr rows => k rows (h ++ [c])
    | inl e => (h ++ [c], inl e)
    end.
Proof. reflexivity. Qed.

Lemma dbind_eq {A B} (m : Frida.D A) (k : A → Frida.D B) (h : list Frida.dbcmd) :
  Frida.dbind m k h
  = match m h with
    | (h', inr a) => k a h'
    | (h', inl e) => (h', inl e)
    end.
Proof. reflexivity. Qed.

(** The handler of a failed write: the rollback is sent, and an
    exception is raised (that of the write, or that of the rollback). *)
Lemma rollback_then_raise (W : Frida.World) (e : exn) (h : list Frida.dbcmd) :
  ∃ e' : exn,
    Frida.dbind (Frida.send_cmd W Frida.Rollback) (λ _, Frida.draise e) h
    = (h ++ [Frida.Rollback], @inl exn unit e').
Proof.
  unfold Frida.dbind, Frida.send_cmd, Frida.draise.
  destruct (Frida.server W h Frida.Rollback) as [e'|?]; eauto.
Qed.

(** The commands of [log_message], when it returns and when it raises. *)
Lemma log_message_cases (W : Frida.World) (user_id : Z)
    (user_query response : string) (response_status : bool)
    (topic_hashs : list string) (category : string) (h : list Frida.dbcmd) :
  let log_id :=
    match Frida.server W h
            (Frida.Execute Frida.insert_log_sql
               [Frida.SInt user_id; Frida.SStr user_query; Frida.SStr response;
                Frida.SBool response_status; Frida.SStr category]) with
    | inr rows => Frida.first_column rows
    | inl _ => Frida.SNull
    end in
  let full := log_statements user_id user_query response response_status
                log_id topic_hashs category in
  let run := Frida.log_message W user_id user_query response response_status
               topic_hashs category h in
  run = (h ++ full, inr tt) ∨
  ∃ sent c e0 e,
    (sent ++ [c]) `prefix_of` full ∧
    Frida.server W (h ++ sent) c = inl e0 ∧
    run = (h ++ sent ++ [c; Frida.Rollback], inl e).
Proof.
  intros log_id full run. subst run full. unfold log_statements.
  unfold Frida.log_message, Frida.dtry. rewrite dbind_send.
  set (ins := Frida.Execute Frida.insert_log_sql _) in *.
  set (cmds := (λ t, Frida.Execute Frida.insert_hash_sql [log_id; Frida.SStr t])
                 <$> topic_hashs).
  destruct (Frida.server W h ins) as [e|rows] eqn:Hins.
  - right. destruct (rollback_then_raise W e (h ++ [ins])) as [e' ->].
    exists [], ins, e, e'. rewrite app_nil_r.
    split; [by eexists|]. split; [done|]. by rewrite <- app_assoc.
  - subst log_id. cbv zeta.
    rewrite (dbind_eq (Frida.insert_hashes W (Frida.first_column rows) topic_hashs)).
    destruct (insert_hashes_history W (Frida.first_column rows) topic_hashs
                (h ++ [ins])) as [Hok|(sent & c & e & Hpre & Hfail & Hrun)].
    + rewrite Hok. rewrite (dbind_send W Frida.Commit). fold cmds.
      destruct (Frida.server W ((h ++ [ins]) ++ cmds) Frida.Commit)
        as [e|?] eqn:Hcommit.
      * right. cbv beta iota.
        destruct (rollback_then_raise W e (((h ++ [ins]) ++ cmds) ++ [Frida.Commit]))
          as [e' ->].
        exists (ins :: cmds), Frida.Commit, e, e'.
        split; [done|]. rewrite <- app_assoc in Hcommit. simpl in Hcommit.
        split; [done|]. by rewrite <- !app_assoc.
      * left. unfold Frida.dret. by rewrite <- !app_assoc.
    + rewrite Hrun. right. cbv beta iota.
      destruct (rollback_then_raise W e ((h ++ [ins]) ++ sent ++ [c])) as [e' ->].
      exists (ins :: sent), c, e, e'.
      split.
      { simpl. apply prefix_cons, prefix_app_r. exact Hpre. }
      rewrite <- app_assoc in Hfail. simpl in Hfail. split; [done|].
      by rewrite <- !app_assoc.
Qed.

(** X19.  [log_message] writes the row of the log and the rows of its
    topic hashes together or not at all.  When it returns, the commands
    sent are the insert of the log, one insert per hash carrying the
    [log_id] that the first insert returned, and the commit, in this
    order.  When it raises, the commands sent are a beginning of that
    list whose last command the database refused, followed by a
    rollback: no commit succeeded. *)
Theorem log_message_atomic (W : Frida.World) (user_id : Z)
    (user_query response : string) (response_status : bool)
    (topic_hashs : list string) (category : string) (h : list Frida.dbcmd) :
  let log_id :=
    match Frida.server W h
            (Frida.Execute Frida.insert_log_sql
               [Frida.SInt user_id; Frida.SStr user_query; Frida.SStr response;
                Frida.SBool response_status; Frida.SStr category]) with
    | inr rows => Frida.first_column rows
    | inl _ => Frida.SNull
    end in
  let full := log_statements user_id user_query response response_status
                log_id topic_hashs category in
  let run := Frida.log_message W user_id user_query response response_status
               topic_hashs category h in
  run = (h ++ full, inr tt) ∨
  ∃ sent c e0 e,
    (sent ++ [c]) `prefix_of` full ∧
    Frida.server W (h ++ sent) c = inl e0 ∧
    run = (h ++ sent ++ [c; Frida.Rollback], inl e).
Proof. apply log_message_cases. Qed.

Example log_message_refused_hash :
  Frida.log_message Frida.world_hash_conflict 5 "q" "a" true ["h1"; "h2"; "h3"]
    "wiki" []
  = ([ Frida.Execute Frida.insert_log_sql
         [Frida.SInt 5; Frida.SStr "q"; Frida.SStr "a"; Frida.SBool true;
          Frida.SStr "wiki"];
       Frida.Execute Frida.insert_hash_sql [Frida.SInt 7; Frida.SStr "h1"];
       Frida.Execute Frida.insert_hash_sql [Frida.SInt 7; Frida.SStr "h2"];
       Frida.Rollback ],
     inl (Raise (OtherException "IntegrityError") "duplicate key")).
Proof. reflexivity. Qed.

(** ** The routes *)

Lemma PostgreSQL_init_eval (W : Frida.World) :
  Frida.PostgreSQL_init W []
  = match Frida.server W [] Frida.Connect with
    | inr _ => ([Frida.Connect], inr tt)
    | inl e => ([Frida.Connect], inl e)
    end.
Proof.
  unfold Frida.PostgreSQL_init. rewrite dbind_send.
  by destruct (Frida.server W [] Frida.Connect).
Qed.

(** The work on the open connection sends statements, commits and
    rollbacks only. *)
Lemma register_user_history (W : Frida.World) (data : Frida.UserData)
    (f j : string) (h : list Frida.dbcmd) :
  ∃ work r,
    Frida.register_user W data f j h = (h ++ work, r) ∧
    Forall is_statement work.
Proof.
  unfold Frida.register_user, Frida.user_exists, Frida.add_user_to_db,
    Frida.dtry, Frida.dbind, Frida.send_cmd, Frida.dret, Frida.draise,
    Frida.lift_d, Frida.word.
  repeat match goal with
         | |- context [Frida.server ?W ?h ?c] =>
             destruct (Frida.server W h c) as [?|[|? ?]]; simpl
         | |- context [bool_decide ?P] => destruct (bool_decide P); simpl
         | |- context [?l !! ?i] =>
             match type of l with
             | list string => destruct (l !! i); simpl
             end
         end;
    rewrite <- ?app_assoc; simpl; do 2 eexists;
    (split; [reflexivity|repeat constructor]).
Qed.

(** How a history of statements ends once [connection_close] has
    run. *)
Lemma closing_last (W : Frida.World) (work : list Frida.dbcmd) :
  Forall is_statement work →
  let h := Frida.Connect :: work
             ++ closing_commands W (Frida.Connect :: work) in
  ((∃ rows, Frida.server W (Frida.Connect :: work) Frida.CloseCursor = inr rows) →
   last h = Some Frida.CloseConnection) ∧
  ((∃ e, Frida.server W (Frida.Connect :: work) Frida.CloseCursor = inl e) →
   last h = Some Frida.CloseCursor ∧ Frida.CloseConnection ∉ h).
Proof.
  intros Hwork h. subst h. unfold closing_commands. split.
  - intros [rows ->].
    change (Frida.Connect :: work ++ [Frida.CloseCursor; Frida.CloseConnection])
      with ((Frida.Connect :: work ++ [Frida.CloseCursor; Frida.CloseConnection])).
    rewrite app_comm_cons.
    change [Frida.CloseCursor; Frida.CloseConnection]
      with ([Frida.CloseCursor] ++ [Frida.CloseConnection]).
    rewrite app_assoc. apply last_snoc.
  - intros [e ->]. split.
    + rewrite app_comm_cons. apply last_snoc.
    + rewrite not_elem_of_cons, not_elem_of_app, not_elem_of_cons.
      split; [done|]. split; [|split; [done|apply not_elem_of_nil]].
      intros Hin. apply (proj1 (Forall_forall _ _) Hwork) in Hin. exact Hin.
Qed.

(** X20.  [POST /v1/auth] ends in one of three ways.  When [auth_1c]
    does not give an employee: status 403, and the database is not
    contacted.  When the connection cannot be opened: status 500 after
    the one attempt to connect.  Otherwise the connection is opened,
    statements, commits and rollbacks follow, and [connection_close] is
    called at the end, on success and on failure alike (every failure
    being answered with status 500): the cursor is closed, and the
    connection is closed after it unless closing the cursor raised, in
    which case the connection is left open and the answer is the same.
    The user 311362872 is let in without any request to 1C. *)
Theorem check_and_add_user_outcomes (W : Frida.World) (data : Frida.UserData) :
  let uid := Frida.user_id data in
  let http := (Frida.check_and_add_user W data).1.1 in
  let h := (Frida.check_and_add_user W data).1.2 in
  let r := (Frida.check_and_add_user W data).2 in
  (uid = 311362872%Z → http = [] ∧ r ≠ inl Frida.forbidden) ∧
  ((r = inl Frida.forbidden ∧ h = [] ∧ uid ≠ 311362872%Z ∧
    ∃ msg, Frida.auth_1c W uid = (http, Frida.ErrorDict msg)) ∨
   (r = inl Frida.internal_server_error ∧ h = [Frida.Connect] ∧
    ∃ e, Frida.server W [] Frida.Connect = inl e) ∨
   (∃ work,
      h = Frida.Connect :: work ++ closing_commands W (Frida.Connect :: work) ∧
      Forall is_statement work ∧
      (r = inl Frida.internal_server_error ∨ ∃ response, r = inr response) ∧
      ((∃ rows, Frida.server W (Frida.Connect :: work) Frida.CloseCursor = inr rows) →
       last h = Some Frida.CloseConnection) ∧
      ((∃ e, Frida.server W (Frida.Connect :: work) Frida.CloseCursor = inl e) →
       last h = Some Frida.CloseCursor ∧ Frida.CloseConnection ∉ h))).
Proof.
  intros uid http h r. subst uid http h r. unfold Frida.check_and_add_user.
  assert (Hdb : ∀ (http : list Frida.http_event) f j,
    let res :=
      match Frida.PostgreSQL_init W [] with
      | (h, inl _) => (http, h, inl Frida.internal_server_error)
      | (h, inr _) =>
          let '(h', r) := Frida.register_user W data f j h in
          let '(h'', _) := Frida.connection_close W h' in
          (http, h'',
           match r with
           | inl _ => inl Frida.internal_server_error
           | inr response => inr response
           end)
      end in
    res.1.1 = http ∧ res.2 ≠ inl Frida.forbidden ∧
    ((res.2 = inl Frida.internal_server_error ∧ res.1.2 = [Frida.Connect] ∧
      ∃ e, Frida.server W [] Frida.Connect = inl e) ∨
     (∃ work,
        res.1.2 = Frida.Connect :: work
                    ++ closing_commands W (Frida.Connect :: work) ∧
        Forall is_statement work ∧
        (res.2 = inl Frida.internal_server_error
         ∨ ∃ response, res.2 = inr response) ∧
        ((∃ rows, Frida.server W (Frida.Connect :: work) Frida.CloseCursor
                  = inr rows) →
         last res.1.2 = Some Frida.CloseConnection) ∧
        ((∃ e, Frida.server W (Frida.Connect :: work) Frida.CloseCursor = inl e) →
         last res.1.2 = Some Frida.CloseCursor
         ∧ Frida.CloseConnection ∉ res.1.2)))).
  { intros http f j. rewrite PostgreSQL_init_eval.
    destruct (Frida.server W [] Frida.Connect) as [e|rows] eqn:Hconn.
    - cbv zeta. simpl. split; [done|]. split; [done|]. left. eauto.
    - destruct (register_user_history W data f j [Frida.Connect])
        as (work & r & -> & Hwork).
      rewrite connection_close_history.
      cbv zeta. cbn [fst snd app]. split; [done|]. split; [by destruct r|]. right.
      exists work. split; [done|].
      split; [done|]. split; [destruct r; eauto|].
      pose proof (closing_last W work Hwork) as Hlast.
      exact Hlast. }
  destruct (Frida.user_id data =? 311362872)%Z eqn:Hid; cbn [negb].
  - apply Z.eqb_eq in Hid.
    specialize (Hdb [] "Крохалев Леонтий Михайлович" "Разработчик").
    cbv zeta in Hdb.
    match type of Hdb with
    | (?res).1.1 = _ ∧ _ => destruct res as [[http h] r]
    end.
    simpl in *. destruct Hdb as (-> & Hr & Hcases). split; [done|]. right.
    exact Hcases.
  - apply Z.eqb_neq in Hid.
    destruct (Frida.auth_1c W (Frida.user_id data)) as [http [f j|msg]] eqn:Hauth.
    + specialize (Hdb http f j). cbv zeta in Hdb.
      match type of Hdb with
      | (?res).1.1 = _ ∧ _ => destruct res as [[http' h] r]
      end.
      simpl in *. destruct Hdb as (-> & Hr & Hcases). split; [done|]. right.
      exact Hcases.
    + simpl. split; [done|]. left. eauto 10.
Qed.

Ltac unfold_db :=
  unfold Frida.register_user, Frida.user_exists, Frida.add_user_to_db,
    Frida.dtry, Frida.dbind, Frida.send_cmd, Frida.dret, Frida.draise,
    Frida.lift_d, Frida.word, select_user, insert_user in *;
  cbn [app] in *.

(** An empty object from 1C: no employee, status 403, no command to the
    database. *)
Example check_and_add_user_unknown :
  Frida.check_and_add_user Frida.world_unknown
    {| Frida.user_id := 42; Frida.firstname := "V"; Frida.lastname := "I";
       Frida.username := "vanya" |}
  = ([Frida.SessionOpen; Frida.Get (Frida.auth_url 42); Frida.SessionClose],
     [], inl Frida.forbidden).
Proof. reflexivity. Qed.

(** X21.  A new user is stored under the names of the 1C record, not
    under the names sent with the request: when 1C gives an employee
    whose full name has at least two words, the user is not in the table
    and the database accepts the insert, the commit and the closing of
    the cursor, the route inserts the user id and username of the
    request with the second word of the full name as first name and its
    first word as last name, commits, closes the cursor and the
    connection and answers "created" with the full name and the
    position. *)
Theorem check_and_add_user_new_user (W : Frida.World) (data : Frida.UserData)
    (f j w0 w1 : string) (rest : list string) :
  let uid := Frida.user_id data in
  let select := select_user uid in
  let insert := insert_user uid (Frida.username data) w1 w0 in
  uid ≠ 311362872%Z →
  (Frida.auth_1c W uid).2 = Frida.Employee f j →
  f ≠ EmptyString →
  Frida.py_split W f = w0 :: w1 :: rest →
  (∃ rows, Frida.server W [] Frida.Connect = inr rows) →
  Frida.server W [Frida.Connect] select = inr [] →
  (∃ rows, Frida.server W [Frida.Connect; select] insert = inr rows) →
  (∃ rows, Frida.server W [Frida.Connect; select; insert] Frida.Commit = inr rows) →
  (∃ rows, Frida.server W [Frida.Connect; select; insert; Frida.Commit]
                        Frida.CloseCursor = inr rows) →
  Frida.check_and_add_user W data
  = ((Frida.auth_1c W uid).1,
     [Frida.Connect; select; insert; Frida.Commit; Frida.CloseCursor;
      Frida.CloseConnection],
     inr {| Frida.status := "created";
            Frida.message := "User successfully added.";
            Frida.fio := Some f; Frida.position := Some j |}).
Proof.
  intros uid select insert Hid Hauth Hf Hsplit [rows Hconn] Hsel
    [rows1 Hins] [rows2 Hcommit] [rows3 Hclose].
  subst uid select insert. unfold Frida.check_and_add_user.
  apply Z.eqb_neq in Hid. rewrite Hid. cbn [negb].
  destruct (Frida.auth_1c W (Frida.user_id data)) as [http emp].
  simpl in Hauth. subst emp. simpl fst.
  rewrite PostgreSQL_init_eval, Hconn.
  assert (Hreg : Frida.register_user W data f j [Frida.Connect]
                 = ([Frida.Connect; select_user (Frida.user_id data);
                     insert_user (Frida.user_id data) (Frida.username data) w1 w0;
                     Frida.Commit],
                    inr {| Frida.status := "created";
                           Frida.message := "User successfully added.";
                           Frida.fio := Some f; Frida.position := Some j |})).
  { unfold_db. rewrite Hsel. cbn [negb app].
    rewrite bool_decide_eq_false_2 by done. cbn [negb].
    rewrite Hsplit. cbn [lookup list_lookup app]. rewrite Hins. cbn [app].
    by rewrite Hcommit. }
  rewrite Hreg, connection_close_history.
  unfold closing_commands. by rewrite Hclose.
Qed.

Lemma check_and_add_user_new_user_witness :
  Frida.check_and_add_user Frida.world_new_employee
    {| Frida.user_id := 42; Frida.firstname := "V"; Frida.lastname := "I";
       Frida.username := "vanya" |}
  = ((Frida.auth_1c Frida.world_new_employee 42).1,
     [Frida.Connect; select_user 42; insert_user 42 "vanya" "Ivan" "Ivanov";
      Frida.Commit; Frida.CloseCursor; Frida.CloseConnection],
     inr {| Frida.status := "created";
            Frida.message := "User successfully added.";
            Frida.fio := Some "Ivanov Ivan Ivanovich";
            Frida.position := Some "Engineer" |}).
Proof.
  apply (check_and_add_user_new_user Frida.world_new_employee
           {| Frida.user_id := 42; Frida.firstname := "V"; Frida.lastname := "I";
              Frida.username := "vanya" |}
           "Ivanov Ivan Ivanovich" "Engineer" "Ivanov" "Ivan" ["Ivanovich"]);
    try reflexivity; try discriminate; by eexists.
Defined.

(** X22.  An employee whose full name in 1C has fewer than two words and
    who is not in the table yet cannot be registered: the route looks
    the user up, fails on the missing second word before any insert,
    and answers with status 500 after [connection_close], which closes
    the cursor and, when that does not raise, the connection. *)
Theorem check_and_add_user_short_name (W : Frida.World) (data : Frida.UserData)
    (f j : string) :
  let uid := Frida.user_id data in
  uid ≠ 311362872%Z →
  (Frida.auth_1c W uid).2 = Frida.Employee f j →
  f ≠ EmptyString →
  length (Frida.py_split W f) < 2 →
  (∃ rows, Frida.server W [] Frida.Connect = inr rows) →
  Frida.server W [Frida.Connect] (select_user uid) = inr [] →
  Frida.check_and_add_user W data
  = ((Frida.auth_1c W uid).1,
     [Frida.Connect; select_user uid]
       ++ closing_commands W [Frida.Connect; select_user uid],
     inl Frida.internal_server_error) ∧
  ((∃ rows, Frida.server W [Frida.Connect; select_user uid] Frida.CloseCursor
            = inr rows) →
   (Frida.check_and_add_user W data).1.2
   = [Frida.Connect; select_user uid; Frida.CloseCursor; Frida.CloseConnection]).
Proof.
  intros uid Hid Hauth Hf Hlen [rows Hconn] Hsel.
  subst uid. unfold Frida.check_and_add_user.
  apply Z.eqb_neq in Hid. rewrite Hid. cbn [negb].
  destruct (Frida.auth_1c W (Frida.user_id data)) as [http emp].
  simpl in Hauth. subst emp. simpl fst.
  rewrite PostgreSQL_init_eval, Hconn.
  assert (Hreg : ∃ e, Frida.register_user W data f j [Frida.Connect]
                      = ([Frida.Connect; select_user (Frida.user_id data)], inl e)).
  { unfold_db. rewrite Hsel. cbn [negb app].
    rewrite bool_decide_eq_false_2 by done. cbn [negb].
    rewrite lookup_ge_None_2 by lia. eauto. }
  destruct Hreg as [e ->]. rewrite connection_close_history.
  split; [done|].
  intros [rows' Hclose]. cbn [fst snd]. unfold closing_commands.
  by rewrite Hclose.
Qed.

Lemma check_and_add_user_short_name_witness :
  Frida.check_and_add_user Frida.world_single_name
    {| Frida.user_id := 42; Frida.firstname := "Cherilyn";
       Frida.lastname := "Sarkisian"; Frida.username := "cher" |}
  = ((Frida.auth_1c Frida.world_single_name 42).1,
     [Frida.Connect; select_user 42; Frida.CloseCursor; Frida.CloseConnection],
     inl Frida.internal_server_error).
Proof.
  destruct (check_and_add_user_short_name Frida.world_single_name
              {| Frida.user_id := 42; Frida.firstname := "Cherilyn";
                 Frida.lastname := "Sarkisian"; Frida.username := "cher" |}
              "Cher" "Singer") as [H _];
    [discriminate|reflexivity|discriminate|apply Nat.lt_succ_diag_r
    |by eexists|reflexivity|].
  exact H.
Defined.

(** X23.  [POST /v1/log] answers success only when the log row, one row
    per topic hash and the commit all went through, in this order, with
    the status 1 of the request stored as [True] and any other as
    [False].  When the connection cannot be opened, or when the database
    refuses a command (then a rollback follows), it answers with status
    500.  On an opened connection [connection_close] is called at the
    end in every case: the cursor is closed, and the connection is
    closed after it unless closing the cursor raised, in which case the
    connection is left open and the answer is the same. *)
Theorem log_to_frida_db_outcomes (W : Frida.World) (data : Frida.LoggData) :
  let h := (Frida.log_to_frida_db W data).1 in
  let r := (Frida.log_to_frida_db W data).2 in
  (r = inl Frida.internal_server_error ∧ h = [Frida.Connect] ∧
   ∃ e, Frida.server W [] Frida.Connect = inl e) ∨
  ∃ work log_id,
    let full := log_statements (Frida.log_user_id data) (Frida.log_query data)
                  (Frida.log_ai_response data) (Frida.log_status data =? 1)%Z
                  log_id (Frida.log_hashes data) (Frida.log_category data) in
    h = Frida.Connect :: work ++ closing_commands W (Frida.Connect :: work) ∧
    ((∃ rows, Frida.server W (Frida.Connect :: work) Frida.CloseCursor = inr rows) →
     last h = Some Frida.CloseConnection) ∧
    ((∃ e, Frida.server W (Frida.Connect :: work) Frida.CloseCursor = inl e) →
     last h = Some Frida.CloseCursor ∧ Frida.CloseConnection ∉ h) ∧
    ((r = inr tt ∧ work = full) ∨
     (r = inl Frida.internal_server_error ∧
      ∃ sent c e,
        work = sent ++ [c; Frida.Rollback] ∧
        (sent ++ [c]) `prefix_of` full ∧
        Frida.server W (Frida.Connect :: sent) c = inl e)).
Proof.
  intros h r. subst h r. unfold Frida.log_to_frida_db.
  rewrite PostgreSQL_init_eval.
  destruct (Frida.server W [] Frida.Connect) as [e|rows] eqn:Hconn.
  { left. cbn [fst snd]. eauto. }
  right.
  pose proof (log_message_cases W (Frida.log_user_id data) (Frida.log_query data)
                (Frida.log_ai_response data) (Frida.log_status data =? 1)%Z
                (Frida.log_hashes data) (Frida.log_category data) [Frida.Connect])
    as Hcases.
  cbv zeta in Hcases.
  match type of Hcases with
  | context [log_statements _ _ _ _ ?id _ _] => set (log_id := id) in *
  end.
  destruct Hcases as [Hrun|(sent & c & e0 & e & Hpre & Hfail & Hrun)];
    rewrite Hrun, connection_close_history.
  - eexists _, log_id. cbn [fst snd app]. split; [reflexivity|].
    assert (Hst : Forall is_statement
                    (log_statements (Frida.log_user_id data) (Frida.log_query data)
                       (Frida.log_ai_response data) (Frida.log_status data =? 1)%Z
                       log_id (Frida.log_hashes data) (Frida.log_category data))).
    { unfold log_statements. constructor; [done|]. apply Forall_app. split.
      - apply Forall_fmap, Forall_forall. by intros.
      - by repeat constructor. }
    destruct (closing_last W _ Hst) as [H1 H2].
    split; [exact H1|]. split; [exact H2|]. by left.
  - exists (sent ++ [c; Frida.Rollback]), log_id. cbn [fst snd app].
    split; [reflexivity|].
    assert (Hst : Forall is_statement (sent ++ [c; Frida.Rollback])).
    { destruct Hpre as [post Hpost].
      assert (Hfull : Forall is_statement
                (log_statements (Frida.log_user_id data) (Frida.log_query data)
                   (Frida.log_ai_response data) (Frida.log_status data =? 1)%Z
                   log_id (Frida.log_hashes data) (Frida.log_category data))).
      { unfold log_statements. constructor; [done|]. apply Forall_app. split.
        - apply Forall_fmap, Forall_forall. by intros.
        - by repeat constructor. }
      rewrite Hpost in Hfull. apply Forall_app in Hfull as [Hsc _].
      apply Forall_app in Hsc as [Hs Hc]. apply Forall_app. split; [done|].
      apply Forall_cons in Hc as [Hc _]. by repeat constructor. }
    destruct (closing_last W _ Hst) as [H1 H2].
    split; [exact H1|]. split; [exact H2|]. right.
    split; [done|]. exists sent, c, e0. done.
Qed.

Example log_to_frida_db_run :
  Frida.log_to_frida_db Frida.world_new_employee
    {| Frida.log_user_id := 5; Frida.log_query := "q";
       Frida.log_ai_response := "a"; Frida.log_status := 0;
       Frida.log_hashes := ["h1"]; Frida.log_category := EmptyString |}
  = ([ Frida.Connect;
       Frida.Execute Frida.insert_log_sql
         [Frida.SInt 5; Frida.SStr "q"; Frida.SStr "a"; Frida.SBool false;
          Frida.SStr EmptyString];
       Frida.Execute Frida.insert_hash_sql [Frida.SNull; Frida.SStr "h1"];
       Frida.Commit; Frida.CloseCursor; Frida.CloseConnection ],
     inr tt).
Proof. reflexivity. Qed.

(** * Properties of the topic query and of the address search *)

Lemma count_char_append a s t :
  Topics.count_char a (s +:+ t) = Topics.count_char a s + Topics.count_char a t.
Proof.
  induction s as [|b s IH]; [reflexivity|].
  rewrite append_String. simpl. rewrite IH. lia.
Qed.

Lemma count_percent_placeholders n :
  Topics.count_char Topics.percent (Topics.join ", " (replicate n "%s")) = n.
Proof.
  induction n as [|n IH]; [reflexivity|].
  destruct n as [|n]; [reflexivity|].
  change (replicate (S (S n)) "%s") with ("%s" :: replicate (S n) "%s").
  change (Topics.join ", " ("%s" :: replicate (S n) "%s"))
    with ("%s" +:+ ", " +:+ Topics.join ", " (replicate (S n) "%s")).
  rewrite !count_char_append, IH. reflexivity.
Qed.

Lemma topics_sql_placeholders n :
  Topics.count_char Topics.percent (Topics.topics_sql n) = n.
Proof.
  unfold Topics.topics_sql. rewrite !count_char_append, count_percent_placeholders.
  match goal with
  | |- ?a + (_ + ?b) = _ =>
      assert (a = 0) as -> by (by vm_compute);
      assert (b = 0) as -> by (by vm_compute)
  end.
  lia.
Qed.

(** X24.  [get_topics_texts_by_hashs] never raises.  For an empty tuple
    it returns the empty list without a command; otherwise it sends one
    statement, whose text has exactly as many placeholders [%s] as there
    are hashes and whose parameters are the hashes in order, and an
    exception of the database gives the empty list. *)
Theorem get_topics_texts_by_hashs_safe (W : Frida.World) (hashs : list string)
    (h : list Frida.dbcmd) :
  ∃ rows sent,
    Topics.get_topics_texts_by_hashs W hashs h = (h ++ sent, inr rows) ∧
    match hashs with
    | [] => sent = [] ∧ rows = []
    | _ =>
        ∃ sql, sent = [Frida.Execute sql (Frida.SStr <$> hashs)] ∧
               Topics.count_char Topics.percent sql = length hashs ∧
               ((∃ e, Frida.server W h (Frida.Execute sql (Frida.SStr <$> hashs))
                      = inl e) → rows = [])
    end.
Proof.
  destruct hashs as [|t ts].
  - exists [], []. unfold Topics.get_topics_texts_by_hashs, Frida.dret.
    by rewrite app_nil_r.
  - unfold Topics.get_topics_texts_by_hashs, Frida.dtry, Frida.send_cmd, Frida.dret.
    set (hs := t :: ts).
    destruct (Frida.server W h (Frida.Execute (Topics.topics_sql (length hs))
                                  (Frida.SStr <$> hs))) as [e|rows] eqn:Hs.
    + exists [], [Frida.Execute (Topics.topics_sql (length hs)) (Frida.SStr <$> hs)].
      split; [done|]. eexists. split; [done|]. split; [|done].
      apply topics_sql_placeholders.
    + exists rows, [Frida.Execute (Topics.topics_sql (length hs)) (Frida.SStr <$> hs)].
      split; [done|]. eexists. split; [done|]. split.
      * apply topics_sql_placeholders.
      * intros [e He]. rewrite Hs in He. discriminate.
Qed.




(** X26.  One hit that cannot be read fails the whole search: when the
    hits before it are well formed and the loop body raises on it (the
    document is not JSON, a key is missing, or the validation refuses
    it), the route raises status 500 with that exception as detail, and
    none of the addresses read before is returned. *)
Theorem get_addresses_fails_on_bad_document (W : Addresses.World)
    (query_address : string) (good : list (exn + Frida.pyval))
    (bad : exn + Frida.pyval) (rest : list (exn + Frida.pyval)) (e : exn) :
  Addresses.search W (Addresses.py_lower W query_address)
  = inr (good ++ bad :: rest) →
  Forall (Addresses.well_formed W) good →
  Addresses.address_of W bad = inl e →
  Addresses.get_addresses W query_address = inl (Addresses.ServerError e).
Proof.
  intros Hsearch Hgood Hbad.
  unfold Addresses.get_addresses. rewrite Hsearch.
  assert (Hcollect : ∀ acc, Addresses.collect W (good ++ bad :: rest) acc = inl e).
  { clear Hsearch. induction Hgood as [|doc good [r Hr] _ IH]; intros acc; simpl.
    - by rewrite Hbad.
    - rewrite Hr. destruct r; apply IH. }
  rewrite Hcollect. by destruct good.
Qed.

Lemma get_addresses_fails_on_bad_document_witness :
  Addresses.get_addresses Addresses.world_bad_document "Lenina"
  = inl (Addresses.ServerError
           (Raise ValueError "Expecting value: line 1 column 1 (char 0)")).
Proof.
  apply (get_addresses_fails_on_bad_document Addresses.world_bad_document
           "Lenina"
           [inr (Frida.PDict [("id", Frida.PInt 7);
                              ("title", Frida.PStr "Lenina 1");
                              ("territoryId", Frida.PStr "t1");
                              ("territory", Frida.PStr "Center")])]
           (inl (Raise ValueError "Expecting value: line 1 column 1 (char 0)"))
           []).
  - reflexivity.
  - repeat constructor. by eexists.
  - reflexivity.
Defined.

(** A hit whose JSON is a list: subscripting it with a string raises the
    [TypeError] of lists, and the search fails as a whole. *)
Example get_addresses_list_document :
  Addresses.get_addresses
    {| Addresses.py_lower := λ s, s;
       Addresses.search := λ _, inr [inr (Frida.PList [])];
       Addresses.RedisAddressModel := λ a, inr a |} "lenina"
  = inl (Addresses.ServerError
           (Raise (OtherException "TypeError")
                  "list indices must be integers or slices, not str")).
Proof. reflexivity. Qed.
